(** * DigitalTwinServer: streaming telemetry core and batch degradation metrics

    A shallow embedding of [main.py] (the websocket ingestion loop, the
    [/engine] and [/dashboard] read paths, the [/dataset-metrics] endpoint)
    and of [utils/dataset_loader.py] (loading, [compute_engine_degradation],
    [dataset_summary]), with the properties the design document states about
    them.

    Conventions.
    - Python numbers ([int] and [float]) are exact rationals [Q]; floating
      point rounding is not represented.  Equality of numbers is [Qeq].
    - A raised exception is a value of [exn]; code that can raise lives in a
      state-and-exception monad in which, as in Python, the mutations done
      before the exception stay done.
    - Objects that the source shares and mutates (the process-wide
      [engine_data] and [engine_history], pandas data frames) live in an
      explicit state. *)

From Stdlib Require Import QArith Lqa.
From stdpp Require Import gmap strings list pretty.

#[local] Set Warnings "-register-all".
#[local] Open Scope string_scope.
#[local] Open Scope list_scope.

(** ** Python values and exceptions *)

(** What [json.loads] can produce. *)
Inductive pyval :=
| PNone
| PBool (b : bool)
| PNum (q : Q)
| PStr (s : string)
| PList (l : list pyval)
| PDict (d : gmap string pyval).

(** The exceptions the modelled code meets, all of them subclasses of
    [Exception], which is what the [except] clauses of the source catch. *)
Inductive exn :=
| KeyError (key : string)
| TypeError
| ZeroDivisionError
| ValueError
| IndexError
| ReferenceError
| LinAlgError
| FileNotFoundError (msg : string)
| ReaderError (msg : string)
| WebSocketDisconnect.

(** [bool] is a subclass of [int]: [True + 50 == 51]. *)
Definition as_number (v : pyval) : option Q :=
  match v with
  | PNum q => Some q
  | PBool b => Some (if b then 1%Q else 0%Q)
  | _ => None
  end.

(** [a + b] *)
Definition py_add (a b : pyval) : exn + pyval :=
  match as_number a, as_number b with
  | Some p, Some q => inr (PNum (p + q))
  | _, _ =>
      match a, b with
      | PStr s, PStr t => inr (PStr (String.append s t))
      | PList l, PList m => inr (PList (l ++ m))
      | _, _ => inl TypeError
      end
  end.

(** [a / n] for a length [n] *)
Definition py_truediv (a : pyval) (n : nat) : exn + pyval :=
  match as_number a with
  | Some p =>
      match n with
      | O => inl ZeroDivisionError
      | S _ => inr (PNum (p / inject_Z (Z.of_nat n)))
      end
  | None => inl TypeError
  end.

(** [a > k] for a numeric literal [k] *)
Definition py_gt (a : pyval) (k : Q) : exn + bool :=
  match as_number a with
  | Some p => inr (negb (Qle_bool p k))
  | None => inl TypeError
  end.

(** [msg[key]] for a string key: only a dict can be subscripted by a string. *)
Definition subscript (msg : pyval) (key : string) : exn + pyval :=
  match msg with
  | PDict d =>
      match d !! key with
      | Some v => inr v
      | None => inl (KeyError key)
      end
  | _ => inl TypeError
  end.

(** [sum(vs)]: a left fold of [+] from the integer [0]. *)
Fixpoint py_sum_from (acc : pyval) (vs : list pyval) : exn + pyval :=
  match vs with
  | [] => inr acc
  | v :: vs' =>
      match py_add acc v with
      | inr acc' => py_sum_from acc' vs'
      | inl e => inl e
      end
  end.

Definition py_sum (vs : list pyval) : exn + pyval := py_sum_from (PNum 0) vs.

(** ** State and exceptions *)

Definition M (S A : Type) : Type := S -> S * (exn + A).

Definition ret {S A} (a : A) : M S A := fun s => (s, inr a).

Definition bind {S A B} (m : M S A) (k : A -> M S B) : M S B :=
  fun s =>
    match m s with
    | (s', inr a) => k a s'
    | (s', inl e) => (s', inl e)
    end.

Definition raise {S A} (e : exn) : M S A := fun s => (s, inl e).

Definition lift {S A} (r : exn + A) : M S A := fun s => (s, r).

Definition gets {S A} (f : S -> A) : M S A := fun s => (s, inr (f s)).

Definition modify {S} (f : S -> S) : M S unit := fun s => (f s, inr tt).

(** [try: m except Exception as e: h e] *)
Definition catch {S A} (m : M S A) (h : exn -> M S A) : M S A :=
  fun s =>
    match m s with
    | (s', inr a) => (s', inr a)
    | (s', inl e) => h e s'
    end.

(** The same for code that touches no shared object. *)
Definition ebind {A B} (r : exn + A) (k : A -> exn + B) : exn + B :=
  match r with
  | inl e => inl e
  | inr a => k a
  end.

Fixpoint emap {A B} (f : A -> exn + B) (l : list A) : exn + list B :=
  match l with
  | [] => inr []
  | a :: l' =>
      match f a with
      | inl e => inl e
      | inr b =>
          match emap f l' with
          | inl e => inl e
          | inr bs => inr (b :: bs)
          end
      end
  end.

Declare Scope py_scope.
Delimit Scope py_scope with py.
Notation "x <- m ;; k" := (bind m (fun x => k))
  (at level 100, m at next level, right associativity) : py_scope.
Notation "m ;; k" := (bind m (fun _ => k))
  (at level 100, right associativity) : py_scope.
Notation "x <~ r ;; k" := (ebind r (fun x => k))
  (at level 100, r at next level, right associativity) : py_scope.

(** ** The streaming core ([main.py]) *)

Module Stream.

#[local] Open Scope py_scope.

(** The dict literals [{"energy": ..., "temp": ...}]: always these two keys. *)
Record Sample := { energy : pyval; temp : pyval }.

(** The two module-level objects every session and read path shares. *)
Record EngineState := {
  engine_data : Sample;
  engine_history : list Sample
}.

Definition maxlen : nat := 60.

(** Module load: [deque(maxlen=60)] and [{"energy": 500, "temp": 300}]. *)
Definition engine0 : EngineState :=
  {| engine_data := {| energy := PNum 500; temp := PNum 300 |};
     engine_history := [] |}.

(** [deque.append] on a bounded deque: append on the right, then pop the
    left end when the size has passed [maxlen]. *)
Definition deque_append {A} (cap : nat) (d : list A) (x : A) : list A :=
  let d' := d ++ [x] in
  if decide (cap < length d') then drop 1 d' else d'.

Definition setitem_energy (v : pyval) : M EngineState unit :=
  modify (fun st =>
    {| engine_data := {| energy := v; temp := temp (engine_data st) |};
       engine_history := engine_history st |}).

Definition setitem_temp (v : pyval) : M EngineState unit :=
  modify (fun st =>
    {| engine_data := {| energy := energy (engine_data st); temp := v |};
       engine_history := engine_history st |}).

Definition history_append (d : Sample) : M EngineState unit :=
  modify (fun st =>
    {| engine_data := engine_data st;
       engine_history := deque_append maxlen (engine_history st) d |}).

(** The payload of [send_json]. *)
Record Response := {
  r_energy : pyval;
  r_temp : pyval;
  r_avg_temp : pyval;
  r_predicted_overheat : pyval;
  r_alert : bool
}.

(** Lines 96-97: the two stores into [engine_data]. *)
Definition update_current (msg : pyval) : M EngineState unit :=
  e <- lift (subscript msg "energy") ;;
  setitem_energy e ;;
  t <- lift (subscript msg "temp") ;;
  setitem_temp t.

(** Line 100. *)
Definition store_in_history : M EngineState unit :=
  ed <- gets engine_data ;;
  history_append {| energy := energy ed; temp := temp ed |}.

(** Lines 103-114: the analytics and the reply that is handed to [send_json]. *)
Definition analytics : M EngineState Response :=
  h <- gets engine_history ;;
  total <- lift (py_sum (map temp h)) ;;
  avg_temp <- lift (py_truediv total (length h)) ;;
  ed <- gets engine_data ;;
  predicted_overheat <- lift (py_add (temp ed) (PNum 50)) ;;
  alert <- lift (py_gt predicted_overheat 550) ;;
  ed' <- gets engine_data ;;
  ret {| r_energy := energy ed'; r_temp := temp ed';
         r_avg_temp := avg_temp;
         r_predicted_overheat := predicted_overheat;
         r_alert := alert |}.

(** One pass through the body of the [while True] loop after [receive_json]
    has returned [msg], up to the call of [send_json].  Nothing in it
    awaits, so no other coroutine runs in between. *)
Definition iteration (msg : pyval) : M EngineState Response :=
  update_current msg ;;
  store_in_history ;;
  analytics.

(** What the transport does at one turn of the loop.  [Json msg delivered]:
    [receive_json] returns [msg], and [delivered] tells whether the
    [send_json] of the reply succeeds.  [Dropped e]: [receive_json] raises
    [e] (the peer is gone, or the frame is not JSON). *)
Inductive inbound :=
| Json (msg : pyval) (delivered : bool)
| Dropped (e : exn).

(** How a session stands: [Awaiting], suspended in [receive_json] with no
    more input yet, or [Broke e], out of the loop through
    [except Exception as e: ... break]. *)
Inductive session_end :=
| Awaiting
| Broke (e : exn).

(** [websocket_endpoint] after [accept]: the replies sent, how the session
    stands, and the shared state it leaves. *)
Fixpoint websocket_endpoint (evs : list inbound) (st : EngineState)
  : EngineState * (list Response * session_end) :=
  match evs with
  | [] => (st, ([], Awaiting))
  | Dropped e :: _ => (st, ([], Broke e))
  | Json msg delivered :: rest =>
      match iteration msg st with
      | (st', inl e) => (st', ([], Broke e))
      | (st', inr r) =>
          if delivered then
            let '(st'', (out, fin)) := websocket_endpoint rest st' in
            (st'', (r :: out, fin))
          else (st', ([], Broke WebSocketDisconnect))
      end
  end.

(** The shared state after the event loop has run the loop body on [msgs],
    the frames of all sessions in the order they were handled.  A session
    that broke does not stop the process: later frames belong to other or
    new connections. *)
Definition handled (msgs : list pyval) (st : EngineState) : EngineState :=
  fold_left (fun s m => fst (iteration m s)) msgs st.

(** The states a reader can see: the one before any frame and the one after
    each loop body. *)
Fixpoint observations (msgs : list pyval) (st : EngineState) : list EngineState :=
  st :: match msgs with
        | [] => []
        | m :: rest => observations rest (fst (iteration m st))
        end.

(** [GET /engine]: [JSONResponse(engine_data)]. *)
Definition get_engine_data (st : EngineState) : Sample := engine_data st.

(** The values [GET /dashboard] derives from the window (lines 63-73; the
    maximum of the energies and the HTML around the values are left out). *)
Record DashboardValues := { d_avg_temp : pyval; d_alert : bool }.

Definition dashboard (st : EngineState) : exn + DashboardValues :=
  match engine_history st with
  | [] => inr {| d_avg_temp := PNum 0; d_alert := false |}
  | _ :: _ =>
      let temps := map temp (engine_history st) in
      match py_sum temps with
      | inl e => inl e
      | inr total =>
          match py_truediv total (length temps) with
          | inl e => inl e
          | inr avg_temp =>
              match last temps with
              | None => inl IndexError
              | Some t =>
                  match py_add t (PNum 50) with
                  | inl e => inl e
                  | inr predicted_overheat =>
                      match py_gt predicted_overheat 550 with
                      | inl e => inl e
                      | inr alert =>
                          inr {| d_avg_temp := avg_temp; d_alert := alert |}
                      end
                  end
              end
          end
      end
  end.

(** A message that reaches line 100 stores this sample. *)
Definition stored (msg : pyval) : option Sample :=
  match subscript msg "energy", subscript msg "temp" with
  | inr e, inr t => Some {| energy := e; temp := t |}
  | _, _ => None
  end.

Definition stored_samples (msgs : list pyval) : list Sample :=
  omap stored msgs.

(** Messages and states used as examples below. *)

Definition sample_msg (e t : Q) : pyval :=
  PDict (<["energy" := PNum e]> (<["temp" := PNum t]> ∅)).

Definition energy_only_msg (e : Q) : pyval :=
  PDict (<["energy" := PNum e]> ∅).

Definition text_temp_msg (e : Q) (t : string) : pyval :=
  PDict (<["energy" := PNum e]> (<["temp" := PStr t]> ∅)).

Definition numbered_msg (i : nat) : pyval :=
  sample_msg (inject_Z (Z.of_nat i)) (inject_Z (300 + Z.of_nat i)).

Definition bool_temp_msg (e : Q) (t : bool) : pyval :=
  PDict (<["energy" := PNum e]> (<["temp" := PBool t]> ∅)).

(** The frames of a session whose loop body ran: all of them up to the one
    at which the session broke, that one included. *)
Fixpoint received (evs : list inbound) (st : EngineState) : list pyval :=
  match evs with
  | [] => []
  | Dropped _ :: _ => []
  | Json msg delivered :: rest =>
      msg :: match iteration msg st with
             | (st', inr _) => if delivered then received rest st' else []
             | (_, inl _) => []
             end
  end.

(** The [temp] field cannot be used: it is absent (or the message is not
    an object), or it is there and is neither a number nor a boolean. *)
Definition temp_malformed (msg : pyval) : Prop :=
  match subscript msg "temp" with
  | inl _ => True
  | inr t => as_number t = None
  end.

(** A message that raises at line 97, after line 96 has stored its energy. *)
Definition energy_without_temp (msg : pyval) : Prop :=
  match subscript msg "energy", subscript msg "temp" with
  | inr _, inl _ => True
  | _, _ => False
  end.

(** The state after lines 96-97 when line 97 raises, and after line 100. *)
Definition with_energy (e : pyval) (st : EngineState) : EngineState :=
  {| engine_data := {| energy := e; temp := temp (engine_data st) |};
     engine_history := engine_history st |}.

Definition with_sample (d : Sample) (st : EngineState) : EngineState :=
  {| engine_data := d;
     engine_history := deque_append maxlen (engine_history st) d |}.

(** The window is empty or ends with [engine_data]. *)
Definition window_follows_current (st : EngineState) : Prop :=
  match last (engine_history st) with
  | None => True
  | Some d => d = engine_data st
  end.




(** A window holding the temperatures 300 and 310. *)
Definition two_samples : EngineState :=
  handled [sample_msg 480 300; sample_msg 490 310] engine0.

Definition numeric_sample (e t : Q) : Sample :=
  {| energy := PNum e; temp := PNum t |}.

End Stream.

(** ** The batch path ([utils/dataset_loader.py]) *)

Module Dataset.

#[local] Open Scope py_scope.

(** A cell of a numeric frame; [None] is NaN (a missing value). *)
Abbreviation cell := (option Q).

(** A frame read with [header=None]: integer-labelled columns [0 .. width-1],
    rows of [width] cells, and the column labelled ['RUL'] once it is set. *)
Record DataFrame := {
  width : nat;
  body : list (list cell);
  RUL : option (list cell)
}.

(** Frames are objects: names hold locations of a store. *)
Abbreviation heap := (gmap nat DataFrame).

Definition alloc (d : DataFrame) : M heap nat :=
  fun h => let l := fresh (dom h) in (<[l := d]> h, inr l).

(** Reading through a name.  A name always refers to a live object; the
    error case only makes the function total. *)
Definition deref (l : nat) : M heap DataFrame :=
  fun h =>
    match h !! l with
    | Some d => (h, inr d)
    | None => (h, inl ReferenceError)
    end.

(** [df.copy()]: a new object with the same contents. *)
Definition copy (l : nat) : M heap nat :=
  d <- deref l ;;
  alloc d.

(** [df.shape[1]] *)
Definition shape1 (d : DataFrame) : nat :=
  width d + match RUL d with Some _ => 1 | None => 0 end.

(** [row[i]] and [df[i]] for an integer label. *)
Definition getitem_row (row : list cell) (i : nat) : exn + cell :=
  match row !! i with
  | Some c => inr c
  | None => inl (KeyError (pretty i))
  end.

Definition getitem_col (d : DataFrame) (i : nat) : exn + list cell :=
  if decide (i < width d)
  then emap (fun row => getitem_row row i) (body d)
  else inl (KeyError (pretty i)).

(** [df['RUL'] = col] on the object at [l].  [apply(..., axis=1)] on a frame
    without rows gives back a frame, not a column, and the assignment of a
    frame of several columns to one label raises. *)
Definition setitem_RUL (l : nat) (col : list cell) : M heap unit :=
  d <- deref l ;;
  match col with
  | [] => raise ValueError
  | _ :: _ =>
      fun h => (<[l := {| width := width d; body := body d; RUL := Some col |}]> h,
                inr tt)
  end.

Definition isnan (c : cell) : bool :=
  match c with
  | None => true
  | Some _ => false
  end.

(** [unit == k] on a column value: NaN equals nothing. *)
Definition is_unit (k : Q) (c : cell) : bool :=
  match c with
  | Some q => Qeq_bool q k
  | None => false
  end.

(** Boolean-mask selection [xs[mask]]. *)
Fixpoint select {A} (mask : list bool) (xs : list A) : list A :=
  match mask, xs with
  | b :: mask', x :: xs' => if b then x :: select mask' xs' else select mask' xs'
  | _, _ => []
  end.

(** The distinct values of a key column in order of first appearance, NaN
    dropped (as [groupby] and [nunique] do). *)
Fixpoint distinct_units (units : list cell) : list Q :=
  match units with
  | [] => []
  | None :: rest => distinct_units rest
  | Some k :: rest =>
      k :: List.filter (fun q => negb (Qeq_bool q k)) (distinct_units rest)
  end.

Definition nanmax (a b : cell) : cell :=
  match a, b with
  | None, c => c
  | c, None => c
  | Some p, Some q => Some (if Qle_bool p q then q else p)
  end.

Definition nanmin (a b : cell) : cell :=
  match a, b with
  | None, c => c
  | c, None => c
  | Some p, Some q => Some (if Qle_bool p q then p else q)
  end.

(** [Series.max()], [Series.min()], [Series.mean()]: NaN skipped, NaN when
    nothing is left. *)
Definition max_skipna (cs : list cell) : cell := fold_left nanmax cs None.
Definition min_skipna (cs : list cell) : cell := fold_left nanmin cs None.

Definition Qsum (qs : list Q) : Q := fold_left Qplus qs 0%Q.

Definition mean_skipna (cs : list cell) : cell :=
  match omap id cs with
  | [] => None
  | q :: qs => Some (Qsum (q :: qs) / inject_Z (Z.of_nat (length (q :: qs))))%Q
  end.

(** [np.mean] of a plain list of floats: NaN as soon as one element is. *)
Definition mean_floats (cs : list cell) : cell :=
  if forallb (fun c => negb (isnan c)) cs
  then Some (Qsum (omap id cs) / inject_Z (Z.of_nat (length cs)))%Q
  else None.

(** [df.groupby(unit_id_col)[cycle_col].max()]: one entry per unit.  (pandas
    sorts the entries by key; only lookups by key are made.) *)
Definition groupby_max (units cycles : list cell) : list (Q * cell) :=
  map (fun k => (k, max_skipna (select (map (is_unit k) units) cycles)))
      (distinct_units units).

(** [max_cycle_per_unit[unit]] *)
Definition getitem_series (s : list (Q * cell)) (key : cell) : exn + cell :=
  match key with
  | None => inl (KeyError "nan")
  | Some k =>
      match List.find (fun kv => Qeq_bool (fst kv) k) s with
      | Some kv => inr (snd kv)
      | None => inl (KeyError "unit")
      end
  end.

Definition cell_sub (a b : cell) : cell :=
  match a, b with
  | Some p, Some q => Some (p - q)%Q
  | _, _ => None
  end.

Section Degradation.

(** [np.polyfit(x, y, 1)[0]], numpy's least-squares line fit. *)
Variable polyfit1 : list cell -> list cell -> exn + cell.

Variables (unit_id_col cycle_col : nat).
Variable sensor_cols_arg : option (list nat).

(** The inner function [compute_rul]. *)
Definition compute_rul (max_cycle_per_unit : list (Q * cell)) (row : list cell)
  : exn + cell :=
  unit <~ getitem_row row unit_id_col ;;
  cycle <~ getitem_row row cycle_col ;;
  m <~ getitem_series max_cycle_per_unit unit ;;
  inr (cell_sub m cycle).

(** Lines 87-94 for one unit and one sensor column. *)
Definition sensor_slope (X y : list cell) : exn + list cell :=
  if (1 <? length X)%nat && negb (forallb isnan y) then
    let valid_idx := map (fun c => negb (isnan c)) y in
    if (1 <? length (List.filter id valid_idx))%nat then
      slope <~ polyfit1 (select valid_idx X) (select valid_idx y) ;;
      inr [slope]
    else inr []
  else inr [].

(** Lines 82-94: the slopes, unit by unit and sensor by sensor. *)
Definition degradation_slopes (d : DataFrame) (sensor_cols : list nat)
  : exn + list cell :=
  units <~ getitem_col d unit_id_col ;;
  per_unit <~ emap (fun unit_id =>
      let mask := map (is_unit unit_id) units in
      per_sensor <~ emap (fun sensor_idx =>
          X <~ getitem_col d cycle_col ;;
          y <~ getitem_col d sensor_idx ;;
          sensor_slope (select mask X) (select mask y)) sensor_cols ;;
      inr (concat per_sensor)) (distinct_units units) ;;
  inr (concat per_unit).

Record Summary := {
  rows : nat;
  units : nat;
  mean_rul : cell;
  max_rul : cell;
  min_rul : cell;
  mean_sensor_degradation_slope : option cell;
  num_sensors : nat
}.

Definition compute_engine_degradation (df : nat) : M heap (Summary * nat) :=
  d <- deref df ;;
  let sensor_cols :=
    match sensor_cols_arg with
    | None => seq 2 (shape1 d - 2)
    | Some cols => cols
    end in
  df_enrich <- copy df ;;
  de <- deref df_enrich ;;
  unit_column <- lift (getitem_col de unit_id_col) ;;
  cycle_column <- lift (getitem_col de cycle_col) ;;
  let max_cycle_per_unit := groupby_max unit_column cycle_column in
  rul <- lift (emap (compute_rul max_cycle_per_unit) (body de)) ;;
  setitem_RUL df_enrich rul ;;
  de <- deref df_enrich ;;
  slopes <- lift (degradation_slopes de sensor_cols) ;;
  ret ({| rows := length (body de);
          units := length (distinct_units unit_column);
          mean_rul := mean_skipna rul;
          max_rul := max_skipna rul;
          min_rul := min_skipna rul;
          mean_sensor_degradation_slope :=
            match slopes with
            | [] => None
            | _ :: _ => Some (mean_floats slopes)
            end;
          num_sensors := length sensor_cols |},
       df_enrich).

End Degradation.

(** *** Loading *)

Definition lower_ascii (c : Ascii.ascii) : Ascii.ascii :=
  let n := Ascii.nat_of_ascii c in
  if (65 <=? n)%nat && (n <=? 90)%nat then Ascii.ascii_of_nat (n + 32) else c.

(** [str.lower()]; only the ASCII letters matter for the suffix tests. *)
Fixpoint lower (s : string) : string :=
  match s with
  | EmptyString => EmptyString
  | String c s' => String (lower_ascii c) (lower s')
  end.

Definition endswith (s suffix : string) : bool :=
  let n := String.length s in
  let k := String.length suffix in
  (k <=? n)%nat && String.eqb (String.substring (n - k) k s) suffix.

Section Loading.

(** The file system and the pandas readers: [os.path.exists],
    [pd.read_excel(path, header=None)], [pd.read_csv(path, sep=r'\s+',
    header=None)] and [pd.read_csv(path, header=None)]. *)
Variable path_exists : string -> bool.
Variables read_excel read_table read_csv : string -> exn + DataFrame.
Variable polyfit1 : list cell -> list cell -> exn + cell.

Definition load_aircraft_dataset (path : string) : M heap nat :=
  if negb (path_exists path)
  then raise (FileNotFoundError (String.append "File not found: " path))
  else
    d <- lift (if endswith (lower path) ".xlsx" || endswith (lower path) ".xls"
               then read_excel path
               else if endswith (lower path) ".txt"
               then read_table path
               else read_csv path) ;;
    alloc d.

(** The dict [dataset_summary] returns: the metrics, or
    [{"error": prefix + str(e)}]. *)
Inductive summary_dict :=
| Metrics (s : Summary)
| Error (prefix : string) (e : exn).

Definition dataset_summary (path : string) : M heap summary_dict :=
  loaded <- catch (df <- load_aircraft_dataset path ;; ret (inr df))
                  (fun e => ret (inl (Error "Failed to load dataset: " e))) ;;
  match loaded with
  | inl err => ret err
  | inr df =>
      catch (res <- compute_engine_degradation polyfit1 0 1 None df ;;
             ret (Metrics (fst res)))
            (fun e => ret (Error "Failed to compute metrics: " e))
  end.


(** The JSON body of [GET /dataset-metrics]. *)
Inductive metrics_response :=
| Unavailable (reason : string)
| Available (summary : option summary_dict).

Definition dataset_metrics (DATASET_CSV : option string) (utilities : bool)
    (_dataset_info : option summary_dict) : metrics_response :=
  match DATASET_CSV with
  | None => Unavailable "DATASET_CSV not set"
  | Some _ =>
      if utilities
      then Available _dataset_info
      else Unavailable "dataset utilities not available (install pandas/numpy)"
  end.

End Loading.

(** *** Instances used in the examples *)

(** Ordinary least squares in exact arithmetic: the slope of the line fitted
    to the points [(x, y)].  It stands for [np.polyfit] where the fit is
    well posed (at least two distinct abscissae, no NaN) and raises
    otherwise. *)
Definition exact_polyfit1 (xs ys : list cell) : exn + cell :=
  if forallb (fun c => negb (isnan c)) xs && forallb (fun c => negb (isnan c)) ys
  then
    let X := omap id xs in
    let Y := omap id ys in
    let n := inject_Z (Z.of_nat (length X)) in
    let den := (n * Qsum (zip_with Qmult X X) - Qsum X * Qsum X)%Q in
    if Qeq_bool den 0
    then inl LinAlgError
    else inr (Some ((n * Qsum (zip_with Qmult X Y) - Qsum X * Qsum Y) / den)%Q)
  else inl LinAlgError.

Definition frame_of (w : nat) (rows : list (list Q)) : DataFrame :=
  {| width := w; body := map (map Some) rows; RUL := None |}.

(** The rows [(1,1,10), (1,2,12), (1,3,14), (2,1,5)]: unit, cycle, sensor. *)
Definition example_frame : DataFrame :=
  frame_of 3 [[1; 1; 10]; [1; 2; 12]; [1; 3; 14]; [2; 1; 5]]%Q.

(** The cell of a row under an integer label (NaN where there is none). *)
Definition cell_at (i : nat) (row : list cell) : cell := default None (row !! i).

(** A frame as the readers deliver it: rectangular, at least the unit and
    cycle columns, no ['RUL'] column yet, and numbers in those two columns
    (sensor readings may be missing). *)
Definition numeric_frame (d : DataFrame) : Prop :=
  2 <= width d /\
  RUL d = None /\
  Forall (fun row => length row = width d /\
                     isnan (cell_at 0 row) = false /\
                     isnan (cell_at 1 row) = false)
         (body d).

(** [m] is the largest cycle among the rows of [d] whose unit is [u]. *)
Definition max_cycle_of_unit (d : DataFrame) (u m : Q) : Prop :=
  (exists row u', In row (body d) /\ row !! 0 = Some (Some u') /\ (u' == u)%Q /\
                  row !! 1 = Some (Some m)) /\
  (forall row u' c, In row (body d) -> row !! 0 = Some (Some u') -> (u' == u)%Q ->
                    row !! 1 = Some (Some c) -> (c <= m)%Q).

(** The remaining useful life the design document gives a row: the largest
    cycle of the row's unit minus the row's cycle, never negative, and zero
    on a row whose cycle is the largest of its unit. *)
Definition rul_of_row (d : DataFrame) (row : list cell) (r : cell) : Prop :=
  exists u c m,
    row !! 0 = Some (Some u) /\ row !! 1 = Some (Some c) /\
    max_cycle_of_unit d u m /\
    r = Some (m - c)%Q /\
    (0 <= m - c)%Q /\
    ((forall row' u' c', In row' (body d) -> row' !! 0 = Some (Some u') ->
        (u' == u)%Q -> row' !! 1 = Some (Some c') -> (c' <= c)%Q) ->
     (m - c == 0)%Q).

(** The sensor columns a call works on, and a frame with its new column. *)
Definition default_sensor_cols (sensor_cols_arg : option (list nat)) (d : DataFrame)
  : list nat :=
  match sensor_cols_arg with
  | None => seq 2 (shape1 d - 2)
  | Some cols => cols
  end.

Definition with_RUL (d : DataFrame) (col : list cell) : DataFrame :=
  {| width := width d; body := body d; RUL := Some col |}.

(** A file system with no file at all and readers that are never reached. *)
Definition no_file (path : string) : bool := false.
Definition no_reader (path : string) : exn + DataFrame := inl (ReaderError "unreachable").

End Dataset.

(** ** More of the streaming core: sessions as a whole *)

Module Session.

Import Stream.

(** A message with only a [temp] field. *)
Definition temp_only_msg (t : Q) : pyval :=
  PDict (<["temp" := PNum t]> ∅).


(** The reply carries the energy and the temperature of the frame. *)
Definition echoes (msg : pyval) (r : Response) : Prop :=
  subscript msg "energy" = inr (r_energy r) /\
  subscript msg "temp" = inr (r_temp r).




End Session.

(** ** More of [main.py]: the dashboard page *)

Module Page.

Import Stream.
#[local] Open Scope py_scope.









End Page.

(** ** More of the batch path *)

Module Batch.

Import Dataset.

(** Loading through one reader: its exception, or its frame as a new object. *)
Definition loaded_with (reader : string -> exn + DataFrame) (path : string)
    (h : heap) : heap * (exn + nat) :=
  match reader path with
  | inl e => (h, inl e)
  | inr d => (<[fresh (dom h) := d]> h, inr (fresh (dom h)))
  end.

(** A file system in which every path exists. *)
Definition any_file (path : string) : bool := true.

(** The calls the guards of lines 89-92 let through: as many abscissae as
    ordinates, at least two of them, and no missing ordinate. *)
Definition fit_is_guarded (xs ys : list cell) : bool :=
  (length xs =? length ys)%nat && (2 <=? length ys)%nat &&
  forallb (fun c => negb (isnan c)) ys.

(** A line fit that refuses every call the guards would not let through. *)
Definition strict_polyfit1 (xs ys : list cell) : exn + cell :=
  if fit_is_guarded xs ys then exact_polyfit1 xs ys else inl ValueError.

(** Every row has [width] cells. *)
Definition rectangular (d : DataFrame) : Prop :=
  Forall (fun row => length row = width d) (body d).

(** The rows of unit [k]. *)
Definition rows_of_unit (d : DataFrame) (k : Q) : list (list cell) :=
  List.filter (fun row => is_unit k (cell_at 0 row)) (body d).

(** What the computation returns on the example rows, with exact fits. *)
Definition example_summary : Summary * nat :=
  match snd (compute_engine_degradation exact_polyfit1 0 1 None 0
               {[0 := example_frame]}) with
  | inr res => res
  | inl _ =>
      ({| rows := 0; units := 0; mean_rul := None; max_rul := None;
          min_rul := None; mean_sensor_degradation_slope := None;
          num_sensors := 0 |}, 0)
  end.

(** One row per unit, cycles 1, 2, 3 on units 7, 8, 9, and two sensors. *)
Definition singles_frame : DataFrame :=
  frame_of 4 [[7; 1; 10; 20]; [8; 2; 11; 21]; [9; 3; 12; 22]]%Q.

(** A frame of one column, as a delimiter mismatch produces. *)
Definition one_column_frame : DataFrame :=
  frame_of 1 [[1]; [2]; [3]]%Q.

(** A frame whose second row has no unit id. *)
Definition missing_unit_frame : DataFrame :=
  {| width := 3;
     body := [[Some 1; Some 1; Some 10]; [None; Some 2; Some 12]]%Q;
     RUL := None |}.

End Batch.

(** ** Properties of the streaming core *)

Module StreamFacts.

Import Stream.
#[local] Open Scope py_scope.

(** *** The loop body, statement by statement *)

Lemma analytics_eq st :
  analytics st =
    (st,
     total <~ py_sum (map temp (engine_history st)) ;;
     avg_temp <~ py_truediv total (length (engine_history st)) ;;
     predicted_overheat <~ py_add (temp (engine_data st)) (PNum 50) ;;
     alert <~ py_gt predicted_overheat 550 ;;
     inr {| r_energy := energy (engine_data st);
            r_temp := temp (engine_data st);
            r_avg_temp := avg_temp;
            r_predicted_overheat := predicted_overheat;
            r_alert := alert |}).
Proof.
  unfold analytics, bind, lift, gets, ret, ebind; simpl.
  destruct (py_sum _) as [e|total]; [done|].
  destruct (py_truediv _ _) as [e|avg]; [done|].
  destruct (py_add _ _) as [e|po]; [done|].
  destruct (py_gt _ _) as [e|al]; done.
Qed.

Lemma iteration_eq msg st :
  iteration msg st =
    match subscript msg "energy" with
    | inl e => (st, inl e)
    | inr en =>
        match subscript msg "temp" with
        | inl e => (with_energy en st, inl e)
        | inr t => analytics (with_sample {| energy := en; temp := t |} st)
        end
    end.
Proof.
  unfold iteration, update_current, store_in_history, bind, lift; simpl.
  destruct (subscript msg "energy") as [e1|en]; [done|]; simpl.
  destruct (subscript msg "temp") as [e2|t]; done.
Qed.

Lemma iteration_state msg st :
  fst (iteration msg st) =
    match subscript msg "energy", subscript msg "temp" with
    | inl _, _ => st
    | inr en, inl _ => with_energy en st
    | inr en, inr t => with_sample {| energy := en; temp := t |} st
    end.
Proof.
  rewrite iteration_eq.
  destruct (subscript msg "energy"); [done|].
  destruct (subscript msg "temp"); [done|].
  by rewrite analytics_eq.
Qed.

Lemma iteration_stored msg st d :
  stored msg = Some d -> fst (iteration msg st) = with_sample d st.
Proof.
  rewrite iteration_state; unfold stored.
  destruct (subscript msg "energy"), (subscript msg "temp"); naive_solver.
Qed.

Lemma iteration_history msg st :
  engine_history (fst (iteration msg st)) =
    match stored msg with
    | Some d => deque_append maxlen (engine_history st) d
    | None => engine_history st
    end.
Proof.
  rewrite iteration_state; unfold stored.
  destruct (subscript msg "energy"), (subscript msg "temp"); done.
Qed.

Lemma handled_snoc msgs m st :
  handled (msgs ++ [m]) st = fst (iteration m (handled msgs st)).
Proof. unfold handled. by rewrite fold_left_app. Qed.

Lemma handled_history msgs st :
  engine_history (handled msgs st) =
    fold_left (deque_append maxlen) (stored_samples msgs) (engine_history st).
Proof.
  revert st; induction msgs as [|m msgs IH]; intros st; [done|].
  unfold handled in *; simpl. rewrite IH, iteration_history.
  unfold stored_samples; simpl. destruct (stored m); done.
Qed.

(** A session changes the shared state by the loop bodies it runs, so the
    state after any number of sessions, one after the other or interleaved
    at their suspension points, is [handled] of the frames in the order
    their loop bodies ran. *)
Lemma session_is_handled evs st :
  fst (websocket_endpoint evs st) = handled (received evs st) st.
Proof.
  revert st; induction evs as [|[msg delivered|e] evs IH]; intros st; [done| |done].
  simpl. unfold handled; simpl. fold (handled (received evs (fst (iteration msg st)))).
  destruct (iteration msg st) as [st' [e|r]]; simpl; [done|].
  destruct delivered; [|done].
  specialize (IH st'). destruct (websocket_endpoint evs st') as [st'' [out fin]].
  simpl in *. by rewrite IH.
Qed.

(** *** The bounded deque keeps the most recent elements *)

Section Deque.
Context {A : Type}.
Implicit Types (d xs : list A) (x : A) (cap : nat).

Lemma drop_snoc k xs x :
  k <= length xs -> drop 1 (drop k xs ++ [x]) = drop (S k) (xs ++ [x]).
Proof.
  intros Hk. rewrite <- (drop_app_le xs [x] k) by done.
  rewrite drop_drop. f_equal; lia.
Qed.

Lemma pushes_drop cap xs :
  fold_left (deque_append cap) xs [] = drop (length xs - cap) xs.
Proof.
  induction xs as [|x xs IH] using rev_ind; [done|].
  rewrite fold_left_app; simpl. rewrite IH, length_app; simpl.
  unfold deque_append.
  case_decide as Hc; rewrite length_app, length_drop in Hc; simpl in Hc.
  - rewrite drop_snoc by lia. f_equal; lia.
  - replace (length xs - cap) with 0 by lia.
    replace (length xs + 1 - cap) with 0 by lia. done.
Qed.

Lemma deque_append_last cap d x :
  0 < cap -> last (deque_append cap d x) = Some x.
Proof.
  intros Hcap. unfold deque_append.
  case_decide as Hc; [|apply last_snoc].
  rewrite length_app in Hc; simpl in Hc.
  destruct d as [|y d]; simpl in *; [lia|]. apply last_snoc.
Qed.
End Deque.

(** C1.  The window starts empty and every message that gets as far as line
    100 pushes one sample.  After any sequence of pushes the window has
    [min (pushes so far) 60] elements, always the most recent ones, and once
    more than 60 samples have been pushed its oldest element is the
    [(pushes - 60 + 1)]-th sample pushed (index [pushes - 60] from 0). *)
Theorem window_holds_most_recent (msgs : list pyval) :
  let pushed := stored_samples msgs in
  let window := engine_history (handled msgs engine0) in
  window = drop (length pushed - 60) pushed /\
  length window = Nat.min (length pushed) 60 /\
  (60 < length pushed -> head window = pushed !! (length pushed - 60)).
Proof.
  intros pushed window.
  assert (Hw : window = drop (length pushed - 60) pushed).
  { unfold window. rewrite handled_history. apply pushes_drop. }
  split; [done|]. split.
  - rewrite Hw, length_drop. lia.
  - intros _. rewrite Hw. rewrite <- (Nat.add_0_r (length pushed - 60)) at 2.
    rewrite <- lookup_drop. by destruct (drop _ _).
Qed.

Lemma window_holds_most_recent_witness :
  60 < length (stored_samples (map numbered_msg (seq 0 61))) /\
  head (engine_history (handled (map numbered_msg (seq 0 61)) engine0)) =
    Some (numeric_sample 1 301).
Proof.
  assert (Hn : 60 < length (stored_samples (map numbered_msg (seq 0 61)))).
  { vm_compute. lia. }
  split; [exact Hn|].
  destruct (window_holds_most_recent (map numbered_msg (seq 0 61))) as (_ & _ & Hhead).
  rewrite (Hhead Hn). vm_compute. reflexivity.
Defined.

(** *** Arithmetic on received values *)

Lemma py_add_number a v p :
  as_number a = Some p ->
  py_add a v = match as_number v with
               | Some q => inr (PNum (p + q))
               | None => inl TypeError
               end.
Proof.
  intros Ha. unfold py_add. rewrite Ha.
  destruct (as_number v) eqn:Hv; [done|].
  destruct a; try done; destruct v; done.
Qed.

Lemma py_sum_from_stuck acc vs t :
  is_Some (as_number acc) -> as_number t = None -> t ∈ vs ->
  py_sum_from acc vs = inl TypeError.
Proof.
  revert acc; induction vs as [|v vs IH]; intros acc [p Hacc] Ht Hin.
  - by apply elem_of_nil in Hin.
  - simpl. rewrite (py_add_number _ _ _ Hacc).
    destruct (as_number v) as [q|] eqn:Hv; [|done].
    apply IH; [by eexists | done |].
    apply elem_of_cons in Hin as [->|Hin]; [congruence | done].
Qed.


Lemma py_sum_from_raises acc vs e :
  py_sum_from acc vs = inl e -> e = TypeError.
Proof.
  revert acc; induction vs as [|v vs IH]; intros acc; simpl; [done|].
  destruct (py_add acc v) as [e'|acc'] eqn:Hadd; [|by apply IH].
  intros [= <-]. unfold py_add in Hadd.
  destruct (as_number acc), (as_number v), acc, v; naive_solver.
Qed.


(** *** A malformed [temp] field *)

Lemma iteration_malformed msg st :
  temp_malformed msg -> exists e, snd (iteration msg st) = inl e.
Proof.
  unfold temp_malformed. intros Hbad. rewrite iteration_eq.
  destruct (subscript msg "energy") as [e|en]; [by eexists|].
  destruct (subscript msg "temp") as [e|t]; [by eexists|].
  rewrite analytics_eq; simpl. exists TypeError.
  unfold py_sum. rewrite (py_sum_from_stuck _ _ t); [done | by eexists | done |].
  change (map temp ?l) with (temp <$> l).
  apply (list_elem_of_fmap_2 temp _ {| energy := en; temp := t |}).
  apply last_Some_elem_of, deque_append_last. unfold maxlen; lia.
Qed.

(** C2, as the code has it.  A message whose [temp] field is absent, or is
    neither a number nor a boolean, ends the session without a reply, but
    nothing is rolled back: the shared state is what it was before only when
    the [energy] field is missing as well; with [energy] present and [temp]
    absent the energy of [engine_data] is already overwritten; with [temp]
    present and unusable [engine_data] and the window already hold the
    message's values. *)
Theorem malformed_temp_ends_session_without_rollback
    (msg : pyval) (delivered : bool) (rest : list inbound) (st : EngineState) :
  temp_malformed msg ->
  exists e st',
    websocket_endpoint (Json msg delivered :: rest) st = (st', ([], Broke e)) /\
    st' = match subscript msg "energy", subscript msg "temp" with
          | inl _, _ => st
          | inr en, inl _ => with_energy en st
          | inr en, inr t => with_sample {| energy := en; temp := t |} st
          end.
Proof.
  intros Hbad. destruct (iteration_malformed msg st Hbad) as [e He].
  exists e, (fst (iteration msg st)). split; [|apply iteration_state].
  simpl. destruct (iteration msg st) as [st' r]; simpl in *. by subst r.
Qed.

Lemma malformed_temp_ends_session_without_rollback_witness :
  temp_malformed (text_temp_msg 700 "hot") /\
  exists e st',
    websocket_endpoint [Json (text_temp_msg 700 "hot") true] engine0 =
      (st', ([], Broke e)) /\
    st' = with_sample {| energy := PNum 700; temp := PStr "hot" |} engine0.
Proof.
  assert (Hbad : temp_malformed (text_temp_msg 700 "hot")) by (vm_compute; reflexivity).
  split; [exact Hbad|].
  exact (malformed_temp_ends_session_without_rollback
           (text_temp_msg 700 "hot") true [] engine0 Hbad).
Defined.

(** C2 as the design document states it fails: a message with an energy and
    no [temp] ends the session and leaves [engine_data] changed. *)
Lemma malformed_temp_changes_shared_state :
  temp_malformed (energy_only_msg 700) /\
  websocket_endpoint [Json (energy_only_msg 700) true] engine0 =
    ({| engine_data := {| energy := PNum 700; temp := PNum 300 |};
        engine_history := [] |},
     ([], Broke (KeyError "temp"))) /\
  fst (websocket_endpoint [Json (energy_only_msg 700) true] engine0) <> engine0.
Proof.
  split; [vm_compute; reflexivity|]. split; [vm_compute; reflexivity|].
  vm_compute. discriminate.
Qed.

(** The same with a [temp] that is a string: the bad sample is stored in
    [engine_data] and in the window before the sum raises. *)
Lemma text_temp_is_stored :
  websocket_endpoint [Json (text_temp_msg 700 "hot") true] engine0 =
    ({| engine_data := {| energy := PNum 700; temp := PStr "hot" |};
        engine_history := [{| energy := PNum 700; temp := PStr "hot" |}] |},
     ([], Broke TypeError)).
Proof. vm_compute. reflexivity. Qed.

(** *** What the arithmetic can raise *)

Lemma py_add_raises a b e : py_add a b = inl e -> e = TypeError.
Proof.
  unfold py_add. destruct (as_number a), (as_number b), a, b; naive_solver.
Qed.

Lemma py_truediv_raises a n e :
  py_truediv a n = inl e -> e = TypeError \/ (n = 0 /\ e = ZeroDivisionError).
Proof.
  unfold py_truediv. destruct (as_number a); [|naive_solver].
  destruct n; naive_solver.
Qed.

Lemma py_gt_raises a k e : py_gt a k = inl e -> e = TypeError.
Proof. unfold py_gt. destruct (as_number a); naive_solver. Qed.

(** Closes a goal about an exception other than [TypeError], given the
    equation [H] of the operation that raised. *)
Ltac only_type_error H :=
  first [ apply py_sum_from_raises in H
        | apply py_add_raises in H
        | apply py_gt_raises in H ];
  subst; done.


Section DequeMore.
Context {A : Type}.
Implicit Types (d : list A) (x : A) (cap : nat).

Lemma deque_append_nonempty cap d x :
  0 < cap -> 1 <= length (deque_append cap d x).
Proof.
  intros Hcap. unfold deque_append.
  case_decide as Hc; rewrite ?length_drop, !length_app in *; simpl in *; lia.
Qed.


End DequeMore.

(** *** The reply to a well-formed sample *)

Lemma reply_fields st r :
  snd (analytics st) = inr r ->
  r_energy r = energy (engine_data st) /\
  r_temp r = temp (engine_data st) /\
  py_add (temp (engine_data st)) (PNum 50) = inr (r_predicted_overheat r) /\
  py_gt (r_predicted_overheat r) 550 = inr (r_alert r) /\
  exists total,
    py_sum (map temp (engine_history st)) = inr total /\
    py_truediv total (length (engine_history st)) = inr (r_avg_temp r).
Proof.
  rewrite analytics_eq; simpl; unfold ebind.
  destruct (py_sum _) as [?|total]; [done|].
  destruct (py_truediv _ _) as [?|avg] eqn:Hdiv; [done|].
  destruct (py_add _ _) as [?|po]; [done|].
  destruct (py_gt _ _) as [?|al] eqn:Hgt; [done|].
  intros [= <-]; simpl. rewrite Hgt. eauto 10.
Qed.






(** The example of the design document, by evaluation: temperatures 300,
    310 and then 320 give the average 310 (as the fraction 930/3), the
    prediction 370 and no alert. *)
Example third_sample_reply :
  snd (iteration (sample_msg 500 320) two_samples) =
    inr {| r_energy := PNum 500; r_temp := PNum 320;
           r_avg_temp := PNum (930 # 3);
           r_predicted_overheat := PNum 370;
           r_alert := false |}.
Proof. vm_compute. reflexivity. Qed.

(** *** The rolling average *)




(** With no sample yet the dashboard shows the average 0. *)
Example empty_window_average :
  dashboard engine0 = inr {| d_avg_temp := PNum 0; d_alert := false |}.
Proof. reflexivity. Qed.

(** A JSON boolean is a number to Python's arithmetic: [true] counts as 1,
    the reply is sent and the session goes on. *)
Example boolean_temp_is_answered :
  websocket_endpoint [Json (bool_temp_msg 700 true) true] engine0 =
    ({| engine_data := {| energy := PNum 700; temp := PBool true |};
        engine_history := [{| energy := PNum 700; temp := PBool true |}] |},
     ([{| r_energy := PNum 700; r_temp := PBool true;
          r_avg_temp := PNum 1;
          r_predicted_overheat := PNum 51;
          r_alert := false |}], Awaiting)).
Proof. vm_compute. reflexivity. Qed.

(** *** Division *)

(** C9.  Neither the loop body nor the dashboard can raise
    [ZeroDivisionError]: the loop body divides by the length of a window to
    which the sample has just been appended, which is at least 1, and the
    dashboard divides only in the branch where the window is not empty.  The
    division itself does raise on a zero length. *)
Theorem division_by_zero_unreachable (st : EngineState) (msg : pyval) :
  snd (iteration msg st) <> inl ZeroDivisionError /\
  dashboard st <> inl ZeroDivisionError /\
  (forall d, stored msg = Some d ->
             1 <= length (engine_history (fst (iteration msg st)))) /\
  (engine_history st = [] ->
   dashboard st = inr {| d_avg_temp := PNum 0; d_alert := false |}) /\
  (forall q, py_truediv (PNum q) 0 = inl ZeroDivisionError).
Proof.
  split; [|split; [|split; [|split]]].
  - rewrite iteration_eq.
    destruct (subscript msg "energy") as [e|en] eqn:He.
    { unfold subscript in He. destruct msg; try (injection He as <-; done).
      destruct (d !! "energy"); simplify_eq; done. }
    destruct (subscript msg "temp") as [e|t] eqn:Ht.
    { unfold subscript in Ht. destruct msg; try (injection Ht as <-; done).
      destruct (d !! "temp"); simplify_eq; done. }
    rewrite analytics_eq; simpl; unfold ebind.
    destruct (py_sum _) as [e|total] eqn:Hsum; [only_type_error Hsum|].
    destruct (py_truediv _ _) as [e|avg] eqn:Hdiv.
    { apply py_truediv_raises in Hdiv as [->|[Hlen _]]; [done|].
      pose proof (deque_append_nonempty maxlen (engine_history st)
                    {| energy := en; temp := t |}) as Hpos.
      unfold maxlen in *. lia. }
    destruct (py_add _ _) as [e|po] eqn:Hadd; [only_type_error Hadd|].
    destruct (py_gt _ _) as [e|al] eqn:Hgt; [only_type_error Hgt | done].
  - unfold dashboard. destruct (engine_history st) as [|d0 h]; [done|].
    destruct (py_sum _) as [e|total] eqn:Hsum; [only_type_error Hsum|].
    destruct (py_truediv _ _) as [e|avg] eqn:Hdiv.
    { apply py_truediv_raises in Hdiv as [->|[Hlen _]]; done. }
    destruct (last _); [|done].
    destruct (py_add _ _) as [e|po] eqn:Hadd; [only_type_error Hadd|].
    destruct (py_gt _ _) as [e|al] eqn:Hgt; [only_type_error Hgt | done].
  - intros d Hd. rewrite (iteration_stored _ _ _ Hd); simpl.
    apply deque_append_nonempty. unfold maxlen; lia.
  - intros Hh. unfold dashboard. by rewrite Hh.
  - done.
Qed.

(** *** Current sample and window *)


Lemma iteration_follows msg st :
  ~ energy_without_temp msg ->
  window_follows_current st ->
  window_follows_current (fst (iteration msg st)).
Proof.
  unfold energy_without_temp, window_follows_current.
  rewrite iteration_state. intros Hok Hst.
  destruct (subscript msg "energy") as [?|en]; [done|].
  destruct (subscript msg "temp") as [?|t]; [done|].
  simpl. rewrite deque_append_last; [done | unfold maxlen; lia].
Qed.

Lemma observations_follow msgs st :
  Forall (fun m => ~ energy_without_temp m) msgs ->
  window_follows_current st ->
  Forall window_follows_current (observations msgs st).
Proof.
  intros Hmsgs; revert st; induction Hmsgs as [|m msgs Hm _ IH]; intros st Hst.
  - by constructor.
  - simpl. constructor; [done|]. by apply IH, iteration_follows.
Qed.

(** C5, as the code has it.  A message that carries both fields is stored:
    lines 96-97 write [engine_data] and leave the window alone, line 100 then
    pushes a copy, and after the loop body [engine_data] is that sample and
    the window ends with it.  At every point where a reader can look, the
    window is empty or ends with [engine_data], as long as no message so
    far carried an energy without a [temp]. *)
Theorem current_then_window (msgs : list pyval) :
  Forall (fun m => ~ energy_without_temp m) msgs ->
  Forall window_follows_current (observations msgs engine0) /\
  (forall m st d,
     stored m = Some d ->
     fst (update_current m st) =
       {| engine_data := d; engine_history := engine_history st |} /\
     fst (iteration m st) = with_sample d st /\
     engine_data (fst (iteration m st)) = d /\
     last (engine_history (fst (iteration m st))) = Some d).
Proof.
  intros Hmsgs. split; [by apply observations_follow|].
  intros m st d Hd. split; [|split; [|split]].
  - unfold stored in Hd. unfold update_current, bind, lift; simpl.
    destruct (subscript m "energy"); [done|]; simpl.
    destruct (subscript m "temp"); [done|]; simpl. by injection Hd as <-.
  - by apply iteration_stored.
  - by rewrite (iteration_stored _ _ _ Hd).
  - rewrite (iteration_stored _ _ _ Hd); simpl.
    apply deque_append_last. unfold maxlen; lia.
Qed.

Lemma current_then_window_witness :
  Forall (fun m => ~ energy_without_temp m)
         [sample_msg 600 400; text_temp_msg 610 "hot"; PNone] /\
  Forall window_follows_current
         (observations [sample_msg 600 400; text_temp_msg 610 "hot"; PNone] engine0).
Proof.
  assert (Hok : Forall (fun m => ~ energy_without_temp m)
                       [sample_msg 600 400; text_temp_msg 610 "hot"; PNone]).
  { repeat constructor; vm_compute; tauto. }
  split; [exact Hok|].
  exact (proj1 (current_then_window _ Hok)).
Defined.

(** C5 as the design document states it fails: after a stored sample, a
    message with an energy and no [temp] leaves [engine_data] ahead of the
    window, and that state is what readers see from then on. *)
Lemma window_behind_current :
  ~ Forall window_follows_current
      (observations [sample_msg 600 400; energy_only_msg 700] engine0).
Proof.
  intros H. apply Forall_cons_1 in H as [_ H].
  apply Forall_cons_1 in H as [_ H]. apply Forall_cons_1 in H as [H _].
  vm_compute in H. discriminate.
Qed.

(** *** The latest-sample query *)





End StreamFacts.

(** ** Properties of the batch path *)

Module DatasetFacts.

Import Dataset.
#[local] Open Scope py_scope.

(** *** The run of [compute_engine_degradation], step by step *)

Section Run.
Variable polyfit1 : list cell -> list cell -> exn + cell.
Variables (unit_id_col cycle_col : nat) (sensor_cols_arg : option (list nat)).

Lemma compute_missing (df : nat) (h : heap) :
  h !! df = None ->
  compute_engine_degradation polyfit1 unit_id_col cycle_col sensor_cols_arg df h
    = (h, inl ReferenceError).
Proof.
  intros Hdf. unfold compute_engine_degradation, bind, deref. by rewrite Hdf.
Qed.

Lemma compute_eq (df : nat) (h : heap) (d : DataFrame) :
  h !! df = Some d ->
  compute_engine_degradation polyfit1 unit_id_col cycle_col sensor_cols_arg df h =
    let out := fresh (dom h) in
    let copied := <[out := d]> h in
    match getitem_col d unit_id_col with
    | inl e => (copied, inl e)
    | inr unit_column =>
        match getitem_col d cycle_col with
        | inl e => (copied, inl e)
        | inr cycle_column =>
            match emap (compute_rul unit_id_col cycle_col
                          (groupby_max unit_column cycle_column)) (body d) with
            | inl e => (copied, inl e)
            | inr [] => (copied, inl ValueError)
            | inr (r :: rs) =>
                let rul := r :: rs in
                let enriched := <[out := with_RUL d rul]> h in
                match degradation_slopes polyfit1 unit_id_col cycle_col
                        (with_RUL d rul) (default_sensor_cols sensor_cols_arg d) with
                | inl e => (enriched, inl e)
                | inr slopes =>
                    (enriched,
                     inr ({| rows := length (body d);
                             units := length (distinct_units unit_column);
                             mean_rul := mean_skipna rul;
                             max_rul := max_skipna rul;
                             min_rul := min_skipna rul;
                             mean_sensor_degradation_slope :=
                               match slopes with
                               | [] => None
                               | _ :: _ => Some (mean_floats slopes)
                               end;
                             num_sensors :=
                               length (default_sensor_cols sensor_cols_arg d) |},
                          out))
                end
            end
        end
    end.
Proof.
  intros Hdf.
  unfold compute_engine_degradation, copy, alloc, setitem_RUL, bind, deref, lift,
    raise, ret.
  rewrite Hdf; simpl. rewrite Hdf; simpl. rewrite lookup_insert_eq; simpl.
  destruct (getitem_col d unit_id_col) as [e|unit_column]; [done|]; simpl.
  destruct (getitem_col d cycle_col) as [e|cycle_column]; [done|]; simpl.
  destruct (emap _ (body d)) as [e|[|r rs]]; [done| |]; simpl.
  - by rewrite lookup_insert_eq.
  - rewrite !lookup_insert_eq; simpl. rewrite insert_insert_eq.
    unfold default_sensor_cols, with_RUL.
    destruct (degradation_slopes _ _ _ _ _) as [e|slopes]; done.
Qed.

End Run.

(** *** The caller's frame *)

Lemma fresh_unused (h : heap) : h !! fresh (dom h) = None.
Proof. apply not_elem_of_dom, is_fresh. Qed.

Lemma insert_fresh_keeps (h : heap) (d : DataFrame) (l : nat) :
  is_Some (h !! l) -> <[fresh (dom h) := d]> h !! l = h !! l.
Proof.
  intros [d' Hl]. apply lookup_insert_ne. intros <-.
  rewrite fresh_unused in Hl. done.
Qed.

(** Assigning the column in place is visible through the name it is
    assigned through; the copy is what keeps the input as it was. *)
Lemma setitem_RUL_mutates (h : heap) (l : nat) (d : DataFrame) (c : cell) (col : list cell) :
  h !! l = Some d ->
  fst (setitem_RUL l (c :: col) h) !! l = Some (with_RUL d (c :: col)).
Proof.
  intros Hl. unfold setitem_RUL, bind, deref. rewrite Hl; simpl.
  apply lookup_insert_eq.
Qed.

(** C10.  [compute_engine_degradation] leaves every frame that existed
    before the call as it was, the caller's frame included, whether it
    returns or raises; the frame it returns is a new object, different from
    the input, that holds the same rows and the added ['RUL'] column. *)
Theorem input_frame_not_mutated
    (polyfit1 : list cell -> list cell -> exn + cell)
    (unit_id_col cycle_col : nat) (sensor_cols_arg : option (list nat))
    (df : nat) (h : heap) :
  let run := compute_engine_degradation polyfit1 unit_id_col cycle_col
               sensor_cols_arg df h in
  (forall l, is_Some (h !! l) -> fst run !! l = h !! l) /\
  (forall s out, snd run = inr (s, out) ->
     h !! out = None /\ out <> df /\
     exists d rul,
       h !! df = Some d /\ fst run !! df = Some d /\
       fst run !! out = Some (with_RUL d rul)).
Proof.
  intros run; subst run.
  destruct (h !! df) as [d|] eqn:Hdf.
  2:{ rewrite compute_missing by done. split; [done|]. intros s out [=]. }
  rewrite (compute_eq _ _ _ _ _ _ d Hdf); cbv zeta.
  pose proof (fresh_unused h) as Hfresh.
  assert (Hne : fresh (dom h) <> df) by (intros Heq; congruence).
  destruct (getitem_col d unit_id_col) as [e|us];
    [split; [intros l; apply insert_fresh_keeps | intros s out [=]]|].
  destruct (getitem_col d cycle_col) as [e|cs];
    [split; [intros l; apply insert_fresh_keeps | intros s out [=]]|].
  destruct (emap _ (body d)) as [e|[|r rs]];
    [split; [intros l; apply insert_fresh_keeps | intros s out [=]]
    |split; [intros l; apply insert_fresh_keeps | intros s out [=]]|].
  destruct (degradation_slopes _ _ _ _ _) as [e|slopes];
    (split; [intros l; apply insert_fresh_keeps|]); intros s out [=]; subst.
  split; [done|]. split; [done|]. exists d, (r :: rs).
  split; [done|]. simpl. split; [|apply lookup_insert_eq].
  rewrite insert_fresh_keeps; [done | by eexists].
Qed.

(** *** Errors of the batch path *)


(** A path that does not exist, by evaluation. *)
Example missing_file_summary :
  dataset_summary no_file no_reader no_reader no_reader exact_polyfit1 "/data/PM_train.txt" ∅
    = (∅, inr (Error "Failed to load dataset: "
                 (FileNotFoundError "File not found: /data/PM_train.txt"))) /\
  dataset_metrics (Some "/data/PM_train.txt") true
    (Some (Error "Failed to load dataset: "
             (FileNotFoundError "File not found: /data/PM_train.txt")))
    = Available (Some (Error "Failed to load dataset: "
                         (FileNotFoundError "File not found: /data/PM_train.txt"))).
Proof. split; reflexivity. Qed.

(** *** Remaining useful life *)

Lemma emap_Forall2 {A B} (f : A -> exn + B) (R : A -> B -> Prop) (l : list A) :
  (forall a, In a l -> exists b, f a = inr b /\ R a b) ->
  exists bs, emap f l = inr bs /\ Forall2 R l bs.
Proof.
  induction l as [|a l IH]; intros Hf; simpl.
  - exists []. by split; [|constructor].
  - destruct (Hf a (or_introl eq_refl)) as (b & -> & Hb).
    destruct IH as (bs & -> & Hbs); [intros a' Ha'; apply Hf; by right|].
    exists (b :: bs). by split; [|constructor].
Qed.

Lemma emap_total {A B} (f : A -> exn + B) (g : A -> B) (l : list A) :
  (forall a, In a l -> f a = inr (g a)) -> emap f l = inr (map g l).
Proof.
  induction l as [|a l IH]; intros Hf; simpl; [done|].
  rewrite (Hf a (or_introl eq_refl)), IH; [done|].
  intros a' Ha'; apply Hf; by right.
Qed.

Lemma getitem_col_rectangular (d : DataFrame) (i : nat) :
  i < width d ->
  Forall (fun row => length row = width d) (body d) ->
  getitem_col d i = inr (map (cell_at i) (body d)).
Proof.
  intros Hi Hrect. unfold getitem_col. rewrite decide_True by done.
  apply emap_total. intros row Hrow.
  rewrite Forall_forall in Hrect. apply list_elem_of_In, Hrect in Hrow.
  unfold getitem_row, cell_at.
  destruct (row !! i) eqn:Hc; [done|].
  apply lookup_ge_None in Hc. lia.
Qed.

Lemma select_map_filter {A B} (p : A -> bool) (f : A -> B) (l : list A) :
  select (map p l) (map f l) = map f (List.filter p l).
Proof.
  induction l as [|a l IH]; simpl; [done|].
  destruct (p a); simpl; by rewrite IH.
Qed.

Lemma is_unit_Qeq (k u : Q) (c : cell) : (k == u)%Q -> is_unit k c = is_unit u c.
Proof.
  intros Hku. destruct c as [q|]; [|done]. simpl.
  apply Bool.eq_iff_eq_true. rewrite !Qeq_bool_iff. by rewrite Hku.
Qed.

Lemma fold_nanmax (acc : Q) (cs : list cell) :
  Forall (fun c => isnan c = false) cs ->
  exists m,
    fold_left nanmax cs (Some acc) = Some m /\
    (m = acc \/ In (Some m) cs) /\
    (acc <= m)%Q /\
    (forall c, In (Some c) cs -> (c <= m)%Q).
Proof.
  intros Hcs; revert acc; induction Hcs as [|c0 cs Hc0 _ IH]; intros acc.
  - exists acc. split; [done|]. split; [by left|]. split; [apply Qle_refl|].
    by intros c [].
  - destruct c0 as [q|]; [|done]. simpl.
    destruct (IH (if Qle_bool acc q then q else acc)) as (m & -> & Hin & Hle & Hall).
    exists m. split; [done|].
    assert (Hboth : (acc <= m)%Q /\ (q <= m)%Q).
    { destruct (Qle_bool acc q) eqn:Hb.
      - apply Qle_bool_iff in Hb. split; [by eapply Qle_trans | done].
      - split; [done|]. eapply Qle_trans; [|exact Hle].
        apply Qlt_le_weak, Qnot_le_lt. intros Hn.
        apply Qle_bool_iff in Hn. congruence. }
    split; [|split; [tauto|]].
    + destruct Hin as [->|Hin]; [|by right; right].
      destruct (Qle_bool acc q); [right; by left | by left].
    + intros c [[= ->]|Hc]; [tauto | by apply Hall].
Qed.

Lemma max_skipna_numeric (cs : list cell) :
  cs <> [] ->
  Forall (fun c => isnan c = false) cs ->
  exists m,
    max_skipna cs = Some m /\ In (Some m) cs /\
    (forall c, In (Some c) cs -> (c <= m)%Q).
Proof.
  intros Hne Hcs. destruct cs as [|c0 cs]; [done|].
  apply Forall_cons_1 in Hcs as [Hc0 Hcs].
  destruct c0 as [q|]; [|done].
  destruct (fold_nanmax q cs Hcs) as (m & Hm & Hin & Hle & Hall).
  exists m. split; [exact Hm|]. split.
  - destruct Hin as [->|Hin]; [by left | by right].
  - intros c [[= ->]|Hc]; [done | by apply Hall].
Qed.

Lemma distinct_units_complete (units : list cell) (u : Q) :
  In (Some u) units -> exists k, In k (distinct_units units) /\ (k == u)%Q.
Proof.
  induction units as [|[k0|] units IH]; simpl; [done| |].
  - intros [[= ->]|Hin]; [exists u; split; [by left | reflexivity]|].
    destruct (IH Hin) as (k & Hk & Hku).
    destruct (Qeq_bool k k0) eqn:Hkk0.
    + exists k0. split; [by left|]. apply Qeq_bool_iff in Hkk0.
      by rewrite <- Hkk0.
    + exists k. split; [|done]. right. apply filter_In. by rewrite Hkk0.
  - intros [[=]|Hin]. by apply IH.
Qed.

Lemma groupby_lookup (units cycles : list cell) (u : Q) :
  In (Some u) units ->
  exists k, (k == u)%Q /\
    getitem_series (groupby_max units cycles) (Some u)
      = inr (max_skipna (select (map (is_unit k) units) cycles)).
Proof.
  intros Hin. unfold getitem_series, groupby_max.
  destruct (List.find _ _) as [kv|] eqn:Hfind.
  - apply find_some in Hfind as [Hkv Hmatch].
    apply in_map_iff in Hkv as (k & <- & Hk). simpl in *.
    exists k. split; [by apply Qeq_bool_iff | done].
  - destruct (distinct_units_complete units u Hin) as (k & Hk & Hku).
    eapply find_none in Hfind; [|apply in_map_iff; by exists k]. simpl in Hfind.
    apply Qeq_bool_iff in Hku. congruence.
Qed.

Lemma cell_at_Some (i : nat) (row : list cell) (q : Q) :
  cell_at i row = Some q <-> row !! i = Some (Some q).
Proof.
  unfold cell_at. destruct (row !! i) as [c|]; simpl; [|done].
  split; [by intros -> | by intros [= ->]].
Qed.

Lemma numeric_row_cells (d : DataFrame) (row : list cell) :
  numeric_frame d -> In row (body d) ->
  exists u c, row !! 0 = Some (Some u) /\ row !! 1 = Some (Some c).
Proof.
  intros (Hw & _ & Hrows) Hrow.
  rewrite Forall_forall in Hrows.
  apply list_elem_of_In, Hrows in Hrow as (Hlen & H0 & H1).
  destruct row as [|c0 [|c1 row]]; simpl in Hlen; [lia | lia |].
  destruct c0 as [u|], c1 as [c|]; try done. by exists u, c.
Qed.

Lemma compute_rul_numeric (d : DataFrame) (row : list cell) :
  numeric_frame d -> In row (body d) ->
  exists r,
    compute_rul 0 1 (groupby_max (map (cell_at 0) (body d))
                                 (map (cell_at 1) (body d))) row = inr r /\
    rul_of_row d row r.
Proof.
  intros Hd Hrow.
  destruct (numeric_row_cells d row Hd Hrow) as (u & c & Hu & Hc).
  assert (Hin : In (Some u) (map (cell_at 0) (body d))).
  { apply in_map_iff. exists row. split; [by apply cell_at_Some | done]. }
  destruct (groupby_lookup _ (map (cell_at 1) (body d)) u Hin) as (k & Hku & Hget).
  rewrite map_map, select_map_filter in Hget.
  set (group := List.filter (fun r => is_unit k (cell_at 0 r)) (body d)) in Hget.
  assert (Hself : In row group).
  { apply filter_In. split; [done|].
    rewrite (proj2 (cell_at_Some 0 row u) Hu). simpl.
    apply Qeq_bool_iff. by symmetry. }
  assert (Hgroup : forall row', In row' group <->
            In row' (body d) /\ exists u', row' !! 0 = Some (Some u') /\ (u' == u)%Q).
  { intros row'. unfold group. rewrite filter_In. split.
    - intros [Hb Hm]. split; [done|].
      destruct (cell_at 0 row') as [u'|] eqn:Hu'; [|done].
      exists u'. split; [by apply cell_at_Some|].
      simpl in Hm. apply Qeq_bool_iff in Hm. by rewrite Hm.
    - intros [Hb (u' & Hu' & Huu)]. split; [done|].
      rewrite (proj2 (cell_at_Some 0 row' u') Hu'). simpl.
      apply Qeq_bool_iff. by rewrite Huu, Hku. }
  assert (Hnum : Forall (fun c => isnan c = false) (map (cell_at 1) group)).
  { apply Forall_forall. intros x Hx.
    apply list_elem_of_In, in_map_iff in Hx as (row' & <- & Hrow').
    apply Hgroup in Hrow' as [Hb _].
    destruct (numeric_row_cells d row' Hd Hb) as (_ & c' & _ & Hc').
    by rewrite (proj2 (cell_at_Some 1 row' c') Hc'). }
  assert (Hne : map (cell_at 1) group <> []).
  { intros Hnil. apply map_eq_nil in Hnil. rewrite Hnil in Hself. done. }
  destruct (max_skipna_numeric _ Hne Hnum) as (m & Hmax & Hmem & Hbound).
  assert (Hspec : max_cycle_of_unit d u m).
  { split.
    - apply in_map_iff in Hmem as (row' & Hm & Hrow').
      apply Hgroup in Hrow' as [Hb (u' & Hu' & Huu)].
      exists row', u'. repeat split; try done. by apply cell_at_Some.
    - intros row' u' c' Hb Hu' Huu Hc'. apply Hbound.
      apply in_map_iff. exists row'. split; [by apply cell_at_Some|].
      apply Hgroup. eauto. }
  assert (Hcm : (c <= m)%Q).
  { destruct Hspec as [_ Hall]. by apply (Hall row u c). }
  exists (Some (m - c)%Q). split.
  - unfold compute_rul, getitem_row. rewrite Hu; cbn [ebind]. rewrite Hc; cbn [ebind].
    rewrite Hget; cbn [ebind]. by rewrite Hmax.
  - exists u, c, m. repeat split; try done; try apply Hspec.
    + lra.
    + intros Hlast. destruct Hspec as [(row' & u' & Hb & Hu' & Huu & Hm) _].
      pose proof (Hlast row' u' m Hb Hu' Huu Hm). lra.
Qed.



End DatasetFacts.

(** ** Sessions as a whole *)

Module SessionFacts.

Import Stream Session StreamFacts.
#[local] Open Scope py_scope.

(** X1.  A frame without a usable [energy] field (no such key, or not an object
    at all) ends the session at line 96 with that lookup's exception: no
    reply, and the shared state is untouched even if the frame carries a
    valid [temp]. *)
Theorem missing_energy_leaves_state
    (msg : pyval) (delivered : bool) (rest : list inbound) (st : EngineState)
    (e : exn) :
  subscript msg "energy" = inl e ->
  websocket_endpoint (Json msg delivered :: rest) st = (st, ([], Broke e)) /\
  (e = KeyError "energy" \/ e = TypeError).
Proof.
  intros He. split.
  - simpl. by rewrite iteration_eq, He.
  - unfold subscript in He. destruct msg; try (injection He as <-; by right).
    destruct (d !! "energy"); [done|]. injection He as <-. by left.
Qed.

Lemma missing_energy_leaves_state_witness :
  subscript (temp_only_msg 300) "energy" = inl (KeyError "energy") /\
  websocket_endpoint [Json (temp_only_msg 300) true; Json (sample_msg 1 2) true] engine0
    = (engine0, ([], Broke (KeyError "energy"))).
Proof.
  assert (He : subscript (temp_only_msg 300) "energy" = inl (KeyError "energy"))
    by reflexivity.
  split; [exact He|].
  exact (proj1 (missing_energy_leaves_state _ true _ engine0 _ He)).
Defined.

(** *** Replies and frames *)

Lemma reply_echoes msg st r :
  snd (iteration msg st) = inr r -> echoes msg r.
Proof.
  rewrite iteration_eq. unfold echoes.
  destruct (subscript msg "energy") as [?|en]; [done|].
  destruct (subscript msg "temp") as [?|t]; [done|].
  intros Hr. apply reply_fields in Hr as (-> & -> & _). done.
Qed.

(** X2.  A session answers its frames in order, one reply per frame, each reply
    carrying the energy and temperature of its own frame.  The frames whose
    loop body ran are the answered ones, plus at most the one at which the
    session broke; a session that is still waiting has answered every
    frame it was given. *)
Theorem replies_echo_frames (evs : list inbound) (st : EngineState) :
  let out := fst (snd (websocket_endpoint evs st)) in
  let fin := snd (snd (websocket_endpoint evs st)) in
  Forall2 echoes (take (length out) (received evs st)) out /\
  length out <= length (received evs st) <= S (length out) /\
  (fin = Awaiting -> length out = length evs /\ length (received evs st) = length evs).
Proof.
  revert st; induction evs as [|[msg delivered|e] evs IH]; intros st; simpl.
  - split; [constructor|]. split; [lia | done].
  - pose proof (reply_echoes msg st) as Hecho.
    destruct (iteration msg st) as [st' [e|r]]; simpl.
    + split; [constructor|]. split; [lia | done].
    + destruct delivered; simpl.
      * specialize (IH st').
        destruct (websocket_endpoint evs st') as [st'' [out fin]]; simpl in *.
        destruct IH as (Hall & Hlen & Hfin).
        split; [constructor; [by apply Hecho | done]|].
        split; [lia|]. intros Hw. destruct (Hfin Hw). lia.
      * split; [constructor|]. split; [lia | done].
  - split; [constructor|]. split; [lia | done].
Qed.

(** X3.  A reply that cannot be written ends the session after the sample has
    been stored: the client never sees the analytics, but [engine_data] and
    the window already hold its sample. *)
Theorem undelivered_reply_keeps_sample
    (msg : pyval) (rest : list inbound) (st : EngineState) (d : Sample)
    (r : Response) :
  stored msg = Some d ->
  snd (iteration msg st) = inr r ->
  websocket_endpoint (Json msg false :: rest) st
    = (with_sample d st, ([], Broke WebSocketDisconnect)) /\
  get_engine_data (fst (websocket_endpoint (Json msg false :: rest) st)) = d /\
  last (engine_history (fst (websocket_endpoint (Json msg false :: rest) st)))
    = Some d.
Proof.
  intros Hd Hr. pose proof (iteration_stored msg st d Hd) as Hst.
  assert (Hrun : websocket_endpoint (Json msg false :: rest) st
                 = (with_sample d st, ([], Broke WebSocketDisconnect))).
  { simpl. destruct (iteration msg st) as [st' res]; simpl in *. by subst. }
  rewrite Hrun; simpl. split; [done|]. split; [done|].
  apply deque_append_last. unfold maxlen; lia.
Qed.

Lemma undelivered_reply_keeps_sample_witness :
  get_engine_data
    (fst (websocket_endpoint [Json (sample_msg 600 400) false] engine0))
    = numeric_sample 600 400.
Proof.
  assert (Hd : stored (sample_msg 600 400) = Some (numeric_sample 600 400))
    by reflexivity.
  destruct (snd (iteration (sample_msg 600 400) engine0)) as [e|r] eqn:Hr;
    [vm_compute in Hr; discriminate|].
  exact (proj1 (proj2 (undelivered_reply_keeps_sample _ [] engine0 _ r Hd Hr))).
Defined.

(** *** Sessions that do not break *)





(** *** A bad temperature in the window *)








(** *** Sixty good samples *)





(** *** Sessions in pieces *)

(** X7.  A session can be followed piece by piece: if it has broken on the first
    part of its input, nothing of what comes later is read, answered or
    stored; if it is still waiting, it goes on from the state it left, and
    its replies are those to the first part followed by those to the
    rest. *)
Theorem session_continues_or_stays_broken
    (evs rest : list inbound) (st : EngineState) :
  websocket_endpoint (evs ++ rest) st =
    match websocket_endpoint evs st with
    | (st', (out, Broke e)) => (st', (out, Broke e))
    | (st', (out, Awaiting)) =>
        let '(st'', (out', fin)) := websocket_endpoint rest st' in
        (st'', (out ++ out', fin))
    end.
Proof.
  revert st; induction evs as [|[msg delivered|e] evs IH]; intros st; simpl.
  - by destruct (websocket_endpoint rest st) as [st'' [out' fin]].
  - destruct (iteration msg st) as [st1 [e|r]]; [done|].
    destruct delivered; [|done].
    rewrite IH. destruct (websocket_endpoint evs st1) as [st' [out [|e]]]; [|done].
    by destruct (websocket_endpoint rest st') as [st'' [out' fin]].
  - done.
Qed.

End SessionFacts.

(** ** The dashboard page *)

Module PageFacts.

Import Stream Session Page StreamFacts.
#[local] Open Scope py_scope.







End PageFacts.

(** ** More properties of the batch path *)

Module BatchFacts.

Import Dataset Batch DatasetFacts.
#[local] Open Scope py_scope.

(** *** Suffixes *)

Lemma length_append (s t : string) :
  String.length (String.append s t) = String.length s + String.length t.
Proof. induction s as [|c s IH]; simpl; [done | by rewrite IH]. Qed.

Lemma substring_all (s : string) : String.substring 0 (String.length s) s = s.
Proof. induction s as [|c s IH]; simpl; [done | by rewrite IH]. Qed.

Lemma substring_append (p suffix : string) :
  String.substring (String.length p) (String.length suffix) (String.append p suffix)
    = suffix.
Proof. induction p as [|c p IH]; simpl; [apply substring_all | done]. Qed.

Lemma substring_split (s : string) (i : nat) :
  i <= String.length s ->
  s = String.append (String.substring 0 i s)
        (String.substring i (String.length s - i) s).
Proof.
  revert i; induction s as [|c s IH]; intros i Hi; simpl in *.
  - by destruct i.
  - destruct i as [|i]; simpl.
    + by rewrite substring_all.
    + rewrite (IH i) at 1 by lia. reflexivity.
Qed.

Lemma endswith_suffix (s suffix : string) :
  endswith s suffix = true <-> exists p, s = String.append p suffix.
Proof.
  unfold endswith. rewrite andb_true_iff, Nat.leb_le, String.eqb_eq. split.
  - intros [Hlen Hsub].
    exists (String.substring 0 (String.length s - String.length suffix) s).
    pose proof (substring_split s (String.length s - String.length suffix)) as Hs.
    replace (String.length s - (String.length s - String.length suffix))
      with (String.length suffix) in Hs by lia.
    rewrite Hsub in Hs. apply Hs. lia.
  - intros [p ->]. rewrite length_append. split; [lia|].
    replace (String.length p + String.length suffix - String.length suffix)
      with (String.length p) by lia.
    apply substring_append.
Qed.

Lemma append_assoc (a b c : string) :
  String.append (String.append a b) c = String.append a (String.append b c).
Proof.
  induction a as [|x a IH]; [done|].
  change (String x (String.append (String.append a b) c)
          = String x (String.append a (String.append b c))).
  by rewrite IH.
Qed.

Lemma suffix_same_length (p q a b : string) :
  String.append p a = String.append q b ->
  String.length a = String.length b -> a = b.
Proof.
  intros Heq Hlen.
  assert (Hpq : String.length p = String.length q).
  { apply (f_equal String.length) in Heq. rewrite !length_append in Heq. lia. }
  revert q Heq Hpq; induction p as [|c p IH]; intros [|c' q] Heq Hpq;
    simpl in *; try done.
  injection Heq as _ Heq. apply (IH q); [done | lia].
Qed.

Lemma txt_is_not_a_spreadsheet (s : string) :
  endswith s ".txt" = true ->
  endswith s ".xlsx" = false /\ endswith s ".xls" = false.
Proof.
  intros [p Hp]%endswith_suffix. split; apply not_true_is_false;
    intros [q Hq]%endswith_suffix; rewrite Hp in Hq.
  - assert (Hq' : String.append p ".txt" = String.append (String.append q ".") "xlsx").
    { rewrite append_assoc. exact Hq. }
    by apply suffix_same_length in Hq'.
  - by apply suffix_same_length in Hq.
Qed.

(** X11.  For a path that exists, the loader picks its reader by the lower-cased
    end of the path alone: the spreadsheet reader for [.xlsx] and [.xls],
    the whitespace reader for [.txt], the comma reader for anything else.
    What the reader raises is raised with the store untouched; the frame it
    returns becomes one new object. *)
Theorem loader_dispatches_on_extension
    (path_exists : string -> bool)
    (read_excel read_table read_csv : string -> exn + DataFrame)
    (path : string) (h : heap) :
  path_exists path = true ->
  let load := load_aircraft_dataset path_exists read_excel read_table read_csv path h in
  ((exists p, lower path = String.append p ".xlsx" \/
              lower path = String.append p ".xls") ->
   load = loaded_with read_excel path h) /\
  ((exists p, lower path = String.append p ".txt") ->
   load = loaded_with read_table path h) /\
  ((forall p, lower path <> String.append p ".xlsx" /\
              lower path <> String.append p ".xls" /\
              lower path <> String.append p ".txt") ->
   load = loaded_with read_csv path h).
Proof.
  intros Hex load. subst load.
  unfold load_aircraft_dataset, loaded_with, bind, lift, alloc. rewrite Hex; simpl.
  split; [|split].
  - intros [p [Hp|Hp]].
    + rewrite (proj2 (endswith_suffix _ ".xlsx")) by eauto; simpl.
      by destruct (read_excel path).
    + rewrite (proj2 (endswith_suffix _ ".xls")) by eauto.
      rewrite orb_true_r. by destruct (read_excel path).
  - intros Htxt. apply endswith_suffix in Htxt.
    destruct (txt_is_not_a_spreadsheet _ Htxt) as [-> ->]. rewrite Htxt; simpl.
    by destruct (read_table path).
  - intros Hnone.
    assert (Hno : forall suffix, (forall p, lower path <> String.append p suffix) ->
                                 endswith (lower path) suffix = false).
    { intros suffix Hs. apply not_true_is_false.
      intros [p Hp]%endswith_suffix. by apply (Hs p). }
    rewrite !Hno by (intros p; apply Hnone). simpl.
    by destruct (read_csv path).
Qed.

Lemma loader_dispatches_on_extension_witness :
  load_aircraft_dataset any_file no_reader (fun _ => inr example_frame) no_reader
    "Data/PM_TRAIN.TXT" ∅
  = ({[0 := example_frame]}, inr 0).
Proof.
  destruct (loader_dispatches_on_extension any_file no_reader
              (fun _ => inr example_frame) no_reader "Data/PM_TRAIN.TXT" ∅ eq_refl)
    as (_ & Htxt & _).
  rewrite Htxt; [reflexivity|]. by exists "data/pm_train".
Defined.

(** *** Mapping with exceptions *)

Lemma emap_length {A B} (f : A -> exn + B) (l : list A) (bs : list B) :
  emap f l = inr bs -> length bs = length l.
Proof.
  revert bs; induction l as [|a l IH]; intros bs; simpl.
  - by intros [= <-].
  - destruct (f a); [done|]. destruct (emap f l); [done|].
    intros [= <-]. simpl. f_equal. by apply IH.
Qed.

Lemma emap_ext {A B} (f g : A -> exn + B) (l : list A) :
  (forall a, In a l -> f a = g a) -> emap f l = emap g l.
Proof.
  induction l as [|a l IH]; intros Hfg; simpl; [done|].
  rewrite (Hfg a (or_introl eq_refl)), IH; [done|].
  intros a' Ha'. apply Hfg. by right.
Qed.

Lemma emap_raises {A B} (f : A -> exn + B) (l : list A) (a : A) (e : exn) :
  In a l -> f a = inl e -> exists e', emap f l = inl e'.
Proof.
  induction l as [|a0 l IH]; intros Hin Hfa; simpl; [done|].
  destruct Hin as [->|Hin].
  - rewrite Hfa. by eexists.
  - destruct (f a0); [by eexists|].
    destruct (IH Hin Hfa) as [e' ->]. by eexists.
Qed.

Lemma emap_raises_only {A B} (f : A -> exn + B) (l : list A) (a : A) (e : exn) :
  (forall x, In x l -> f x = inl e \/ exists b, f x = inr b) ->
  In a l -> f a = inl e -> emap f l = inl e.
Proof.
  induction l as [|a0 l IH]; intros Hall Hin Hfa; simpl; [done|].
  destruct (Hall a0 (or_introl eq_refl)) as [->|[b Hb]]; [done|].
  rewrite Hb. destruct Hin as [->|Hin]; [congruence|].
  rewrite IH; [done | | done | done].
  intros x Hx. apply Hall. by right.
Qed.

Lemma getitem_col_length (d : DataFrame) (i : nat) (col : list cell) :
  getitem_col d i = inr col -> length col = length (body d).
Proof.
  unfold getitem_col. case_decide; [|done]. apply emap_length.
Qed.


(** *** What a returned summary counts *)



(** *** Frames the computation rejects *)

Lemma too_few_columns
    (polyfit1 : list cell -> list cell -> exn + cell)
    (h : heap) (df : nat) (d : DataFrame) :
  h !! df = Some d -> rectangular d -> width d < 2 ->
  snd (compute_engine_degradation polyfit1 0 1 None df h)
    = inl (KeyError (pretty (width d))).
Proof.
  intros Hdf Hrect Hw. rewrite (compute_eq _ _ _ _ _ _ d Hdf); cbv zeta.
  destruct (width d) as [|[|w]] eqn:Hwd; [| |lia].
  - unfold getitem_col. rewrite Hwd. by rewrite decide_False by lia.
  - rewrite getitem_col_rectangular by (done || lia).
    unfold getitem_col. rewrite Hwd. by rewrite decide_False by lia.
Qed.

(** X13.  A file that loads as a frame of fewer than two columns (a delimiter
    that does not match the extension gives one column) is not an error of
    the load: the summary is the error dict of the computation, with the
    [KeyError] of the first missing column label. *)
Theorem narrow_file_fails_in_compute
    (path_exists : string -> bool)
    (read_excel read_table read_csv : string -> exn + DataFrame)
    (polyfit1 : list cell -> list cell -> exn + cell)
    (path : string) (h h1 : heap) (df : nat) (d : DataFrame) :
  load_aircraft_dataset path_exists read_excel read_table read_csv path h
    = (h1, inr df) ->
  h1 !! df = Some d -> rectangular d -> width d < 2 ->
  snd (dataset_summary path_exists read_excel read_table read_csv polyfit1 path h)
    = inr (Error "Failed to compute metrics: " (KeyError (pretty (width d)))).
Proof.
  intros Hload Hdf Hrect Hw.
  pose proof (too_few_columns polyfit1 h1 df d Hdf Hrect Hw) as Hrun.
  unfold dataset_summary, catch, bind, ret. rewrite Hload; simpl.
  destruct (compute_engine_degradation _ _ _ _ df h1) as [h2 res]; simpl in *.
  by subst res.
Qed.

Lemma narrow_file_fails_in_compute_witness :
  snd (dataset_summary any_file no_reader no_reader (fun _ => inr one_column_frame)
         exact_polyfit1 "data/PM_train.csv" ∅)
    = inr (Error "Failed to compute metrics: " (KeyError "1")).
Proof.
  apply (narrow_file_fails_in_compute any_file no_reader no_reader
           (fun _ => inr one_column_frame) exact_polyfit1 "data/PM_train.csv"
           ∅ {[0 := one_column_frame]} 0 one_column_frame).
  - reflexivity.
  - reflexivity.
  - repeat constructor.
  - simpl. lia.
Defined.

(** X14.  A row without a unit id makes the computation raise [KeyError]: grouping
    drops the missing key, and the row's lookup of its unit's last cycle
    then fails.  One such row anywhere in the file is enough. *)
Theorem missing_unit_id_raises
    (polyfit1 : list cell -> list cell -> exn + cell)
    (h : heap) (df : nat) (d : DataFrame) (row : list cell) :
  h !! df = Some d -> rectangular d -> 2 <= width d ->
  In row (body d) -> cell_at 0 row = None ->
  snd (compute_engine_degradation polyfit1 0 1 None df h) = inl (KeyError "nan").
Proof.
  intros Hdf Hrect Hw Hrow Hnan. rewrite (compute_eq _ _ _ _ _ _ d Hdf); cbv zeta.
  rewrite !getitem_col_rectangular by (done || lia).
  set (mc := groupby_max _ _).
  assert (Hcells : forall x, In x (body d) ->
            exists c0 c1, x !! 0 = Some c0 /\ x !! 1 = Some c1).
  { intros x Hx. unfold rectangular in Hrect. rewrite Forall_forall in Hrect.
    apply list_elem_of_In, Hrect in Hx.
    destruct x as [|c0 [|c1 x]]; simpl in Hx; [lia | lia |]. by exists c0, c1. }
  rewrite (emap_raises_only _ _ row (KeyError "nan")); [done | | done |].
  - intros x Hx. destruct (Hcells x Hx) as (c0 & c1 & H0 & H1).
    unfold compute_rul, getitem_row. rewrite H0; cbn [ebind]. rewrite H1; cbn [ebind].
    destruct c0 as [u|]; [|by left]. right.
    assert (Hin : In (Some u) (map (cell_at 0) (body d))).
    { apply in_map_iff. exists x. split; [by apply cell_at_Some | done]. }
    destruct (groupby_lookup _ (map (cell_at 1) (body d)) u Hin) as (k & _ & Hget).
    fold mc in Hget. rewrite Hget. by eexists.
  - destruct (Hcells row Hrow) as (c0 & c1 & H0 & H1).
    unfold compute_rul, getitem_row. rewrite H0; cbn [ebind]. rewrite H1; cbn [ebind].
    unfold cell_at in Hnan. rewrite H0 in Hnan. simpl in Hnan. by subst c0.
Qed.

Lemma missing_unit_id_raises_witness :
  snd (compute_engine_degradation exact_polyfit1 0 1 None 0 {[0 := missing_unit_frame]})
    = inl (KeyError "nan").
Proof.
  apply (missing_unit_id_raises exact_polyfit1 {[0 := missing_unit_frame]} 0
           missing_unit_frame [None; Some 2; Some 12]%Q).
  - reflexivity.
  - repeat constructor.
  - simpl. lia.
  - simpl. right. by left.
  - reflexivity.
Defined.

(** *** Statistics of the remaining useful life *)

Lemma numeric_rul
    (polyfit1 : list cell -> list cell -> exn + cell)
    (h : heap) (df : nat) (d : DataFrame) :
  h !! df = Some d -> numeric_frame d ->
  exists rul,
    Forall2 (rul_of_row d) (body d) rul /\
    emap (compute_rul 0 1 (groupby_max (map (cell_at 0) (body d))
                                       (map (cell_at 1) (body d)))) (body d)
      = inr rul /\
    getitem_col d 0 = inr (map (cell_at 0) (body d)) /\
    getitem_col d 1 = inr (map (cell_at 1) (body d)).
Proof.
  intros Hdf Hd. pose proof Hd as (Hw & Hrul & Hrows).
  assert (Hrect : Forall (fun row => length row = width d) (body d)).
  { eapply Forall_impl; [exact Hrows|]. by intros row [? _]. }
  destruct (emap_Forall2 _ (rul_of_row d) (body d)
              (fun row Hrow => compute_rul_numeric d row Hd Hrow))
    as (rul & Hemap & Hall).
  exists rul. rewrite !getitem_col_rectangular by (done || lia). done.
Qed.










(** *** What the line fit is asked *)

Lemma select_length {A B} (mask : list bool) (xs : list A) (ys : list B) :
  length xs = length ys -> length (select mask xs) = length (select mask ys).
Proof.
  revert xs ys; induction mask as [|b mask IH]; intros [|x xs] [|y ys] Hlen;
    simpl in *; try done.
  destruct b; simpl; [f_equal|]; apply IH; lia.
Qed.

Lemma select_self {A} (p : A -> bool) (l : list A) :
  select (map p l) l = List.filter p l.
Proof.
  induction l as [|a l IH]; simpl; [done|]. destruct (p a); by rewrite IH.
Qed.

Lemma filter_id_map {A} (p : A -> bool) (l : list A) :
  length (List.filter id (map p l)) = length (List.filter p l).
Proof.
  induction l as [|a l IH]; [done|].
  cbn [map List.filter]. unfold id at 1.
  destruct (p a); cbn [length]; by rewrite IH.
Qed.

Lemma sensor_slope_guarded
    (fit fit' : list cell -> list cell -> exn + cell) (X y : list cell) :
  (forall xs ys, fit_is_guarded xs ys = true -> fit xs ys = fit' xs ys) ->
  length X = length y ->
  sensor_slope fit X y = sensor_slope fit' X y.
Proof.
  intros Hfit Hlen. unfold sensor_slope.
  destruct (_ && _); [|done].
  destruct (1 <? _)%nat eqn:Hcount; [|done].
  rewrite Hfit; [done|].
  apply Nat.ltb_lt in Hcount. rewrite filter_id_map in Hcount.
  unfold fit_is_guarded. rewrite !andb_true_iff. split; [split|].
  - apply Nat.eqb_eq. by apply select_length.
  - apply Nat.leb_le. rewrite select_self. lia.
  - rewrite select_self. apply forallb_forall. intros c Hc.
    by apply filter_In in Hc as [_ Hc].
Qed.

Lemma slopes_guarded
    (fit fit' : list cell -> list cell -> exn + cell)
    (unit_id_col cycle_col : nat) (d : DataFrame) (cols : list nat) :
  (forall xs ys, fit_is_guarded xs ys = true -> fit xs ys = fit' xs ys) ->
  degradation_slopes fit unit_id_col cycle_col d cols
    = degradation_slopes fit' unit_id_col cycle_col d cols.
Proof.
  intros Hfit. unfold degradation_slopes.
  destruct (getitem_col d unit_id_col) as [?|us]; [done|]. cbn [ebind].
  erewrite emap_ext; [reflexivity|]. intros k _. simpl.
  erewrite emap_ext; [reflexivity|]. intros i _. simpl.
  destruct (getitem_col d cycle_col) as [?|X] eqn:HX; [done|]. cbn [ebind].
  destruct (getitem_col d i) as [?|y] eqn:Hy; [done|]. cbn [ebind].
  apply sensor_slope_guarded; [done|]. apply select_length.
  apply getitem_col_length in HX, Hy. congruence.
Qed.

(** X16.  The guards of lines 89-92 decide what the line fit is asked: only as
    many abscissae as ordinates, at least two points, and no missing
    ordinate.  Two fits that agree on such calls give the same result of
    [compute_engine_degradation], summary, store and exception alike. *)
Theorem fit_sees_only_guarded_calls
    (fit fit' : list cell -> list cell -> exn + cell)
    (unit_id_col cycle_col : nat) (sensor_cols_arg : option (list nat))
    (df : nat) (h : heap) :
  (forall xs ys, fit_is_guarded xs ys = true -> fit xs ys = fit' xs ys) ->
  compute_engine_degradation fit unit_id_col cycle_col sensor_cols_arg df h
    = compute_engine_degradation fit' unit_id_col cycle_col sensor_cols_arg df h.
Proof.
  intros Hfit. destruct (h !! df) as [d|] eqn:Hdf.
  - rewrite !(compute_eq _ _ _ _ _ _ d Hdf); cbv zeta.
    destruct (getitem_col d unit_id_col); [done|].
    destruct (getitem_col d cycle_col); [done|].
    destruct (emap _ (body d)) as [?|[|r rs]]; [done|done|].
    by rewrite (slopes_guarded fit fit').
  - by rewrite !compute_missing.
Qed.

Lemma fit_sees_only_guarded_calls_witness :
  compute_engine_degradation exact_polyfit1 0 1 None 0 {[0 := example_frame]}
    = compute_engine_degradation strict_polyfit1 0 1 None 0 {[0 := example_frame]}.
Proof.
  apply fit_sees_only_guarded_calls.
  intros xs ys Hg. unfold strict_polyfit1. by rewrite Hg.
Defined.

(** *** Feeding the result back *)

Lemma first_unit_known
    (unit_id_col cycle_col : nat) (mc : list (Q * cell)) (d : DataFrame)
    (us : list cell) (r : cell) (rs : list cell) :
  getitem_col d unit_id_col = inr us ->
  emap (compute_rul unit_id_col cycle_col mc) (body d) = inr (r :: rs) ->
  exists k ks, distinct_units us = k :: ks.
Proof.
  intros Hus Hrul.
  destruct (body d) as [|row0 rest] eqn:Hbody; [done|].
  unfold getitem_col in Hus. rewrite Hbody in Hus.
  case_decide; [|done]. simpl in Hus, Hrul.
  unfold compute_rul at 1 in Hrul.
  destruct (getitem_row row0 unit_id_col) as [?|unit]; [done|]. cbn [ebind] in Hrul.
  destruct (getitem_row row0 cycle_col) as [?|cycle]; [done|]. cbn [ebind] in Hrul.
  destruct unit as [k|]; [|done].
  destruct (emap _ rest) in Hus; [done|]. injection Hus as <-. simpl. by eexists _, _.
Qed.

Lemma enriched_input_raises
    (polyfit1 : list cell -> list cell -> exn + cell)
    (h : heap) (df : nat) (d : DataFrame) (col : list cell) :
  h !! df = Some d -> RUL d = Some col ->
  exists e, snd (compute_engine_degradation polyfit1 0 1 None df h) = inl e.
Proof.
  intros Hdf Hcol. rewrite (compute_eq _ _ _ _ _ _ d Hdf); cbv zeta.
  destruct (getitem_col d 0) as [?|us] eqn:Hus; [by eexists|].
  destruct (getitem_col d 1) as [?|cs] eqn:Hcs; [by eexists|].
  destruct (emap _ (body d)) as [?|[|r rs]] eqn:Hrul; [by eexists | by eexists|].
  destruct (first_unit_known _ _ _ _ _ _ _ Hus Hrul) as (k & ks & Hk).
  assert (Hw : 2 <= width d).
  { unfold getitem_col in Hcs. case_decide; [lia | done]. }
  assert (Hslopes : exists e,
    degradation_slopes polyfit1 0 1 (with_RUL d (r :: rs)) (default_sensor_cols None d)
      = inl e).
  { unfold degradation_slopes.
    change (getitem_col (with_RUL d (r :: rs))) with (getitem_col d).
    rewrite Hus; cbn [ebind]. rewrite Hk. cbn [emap].
    destruct (emap_raises
                (fun sensor_idx =>
                   X <~ getitem_col d 1 ;;
                   y <~ getitem_col d sensor_idx ;;
                   sensor_slope polyfit1 (select (map (is_unit k) us) X)
                     (select (map (is_unit k) us) y))
                (default_sensor_cols None d) (width d)
                (KeyError (pretty (width d)))) as [e He].
    - unfold default_sensor_cols, shape1. rewrite Hcol. apply in_seq. lia.
    - rewrite Hcs; cbn [ebind]. unfold getitem_col.
      by rewrite decide_False by lia.
    - rewrite He. by eexists. }
  destruct Hslopes as [e ->]. by eexists.
Qed.

(** X17.  The frame [compute_engine_degradation] returns cannot be given back to
    it with the default sensor columns: the ['RUL'] column now counts in
    [df.shape[1]], so the last default sensor index names no column and the
    second call always raises. *)
Theorem enriched_frame_is_rejected
    (polyfit1 polyfit1' : list cell -> list cell -> exn + cell)
    (h h' : heap) (df out : nat) (s : Summary) :
  compute_engine_degradation polyfit1 0 1 None df h = (h', inr (s, out)) ->
  exists e, snd (compute_engine_degradation polyfit1' 0 1 None out h') = inl e.
Proof.
  intros Hrun.
  destruct (h !! df) as [d|] eqn:Hdf; [|by rewrite compute_missing in Hrun].
  rewrite (compute_eq _ _ _ _ _ _ d Hdf) in Hrun; cbv zeta in Hrun.
  destruct (getitem_col d 0); [done|].
  destruct (getitem_col d 1); [done|].
  destruct (emap _ (body d)) as [?|[|r rs]]; [done|done|].
  destruct (degradation_slopes _ _ _ _ _); [done|].
  injection Hrun as <- _ <-.
  apply (enriched_input_raises polyfit1' _ _ (with_RUL d (r :: rs)) (r :: rs));
    [apply lookup_insert_eq | done].
Qed.

Lemma enriched_frame_is_rejected_witness :
  exists e,
    snd (compute_engine_degradation exact_polyfit1 0 1 None (snd example_summary)
           (fst (compute_engine_degradation exact_polyfit1 0 1 None 0
                   {[0 := example_frame]})))
    = inl e.
Proof.
  apply (enriched_frame_is_rejected exact_polyfit1 exact_polyfit1
           {[0 := example_frame]} _ 0 _ (fst example_summary)).
  vm_compute. reflexivity.
Defined.

(** *** Units seen once *)

Lemma concat_nils {A B} (l : list A) : concat (map (fun _ : A => @nil B) l) = [].
Proof. induction l as [|a l IH]; simpl; [done | exact IH]. Qed.

Lemma at_most_one {A} (l : list A) (a b : A) :
  length l <= 1 -> In a l -> In b l -> a = b.
Proof.
  destruct l as [|x [|y l]]; simpl; [done| |lia].
  intros _ [<-|[]] [<-|[]]. done.
Qed.

Lemma Forall2_Forall_r {A B} (R : A -> B -> Prop) (P : B -> Prop)
    (l : list A) (k : list B) :
  Forall2 R l k -> (forall a b, In a l -> R a b -> P b) -> Forall P k.
Proof.
  induction 1 as [|a b l k Hab _ IH]; intros HP; constructor.
  - apply (HP a b); [by left | done].
  - apply IH. intros a' b' Ha'. apply HP. by right.
Qed.

(** X18.  When no unit id occurs in two rows, no line is fitted (the fit is not
    called at all, so it cannot make the call fail): the computation
    returns, the mean slope is absent, and every row's remaining useful
    life is zero. *)
Theorem unrepeated_units_give_no_slope
    (polyfit1 : list cell -> list cell -> exn + cell)
    (h : heap) (df : nat) (d : DataFrame) :
  h !! df = Some d -> numeric_frame d -> body d <> [] ->
  (forall k, length (rows_of_unit d k) <= 1) ->
  exists h' s out rul,
    compute_engine_degradation polyfit1 0 1 None df h = (h', inr (s, out)) /\
    mean_sensor_degradation_slope s = None /\
    h' !! out = Some (with_RUL d rul) /\
    Forall (fun r => exists q, r = Some q /\ (q == 0)%Q) rul.
Proof.
  intros Hdf Hd Hne Hone.
  destruct (numeric_rul polyfit1 h df d Hdf Hd) as (rul & Hall & Hemap & H0 & H1).
  pose proof Hd as (Hw & Hrul & Hrows).
  assert (Hrect : Forall (fun row => length row = width d) (body d)).
  { eapply Forall_impl; [exact Hrows|]. by intros row [? _]. }
  assert (Hslopes :
    degradation_slopes polyfit1 0 1 (with_RUL d rul) (default_sensor_cols None d)
      = inr []).
  { unfold degradation_slopes.
    change (getitem_col (with_RUL d rul)) with (getitem_col d).
    rewrite H0; cbn [ebind].
    rewrite (emap_total _ (fun _ => []));
      [cbn [ebind]; by rewrite concat_nils|].
    intros k _.
    rewrite (emap_total _ (fun _ => []));
      [cbn [ebind]; by rewrite concat_nils|].
    intros i Hi. unfold default_sensor_cols, shape1 in Hi. rewrite Hrul in Hi.
    apply in_seq in Hi. rewrite H1; cbn [ebind].
    rewrite getitem_col_rectangular by (done || lia). cbn [ebind].
    unfold sensor_slope. rewrite map_map, select_map_filter, length_map.
    fold (rows_of_unit d k).
    destruct (Nat.ltb_spec 1 (length (rows_of_unit d k))) as [Hlt|_]; [|done].
    specialize (Hone k). lia. }
  rewrite (compute_eq _ _ _ _ _ _ d Hdf); cbv zeta. rewrite H0, H1, Hemap.
  destruct rul as [|r rs] eqn:Hr.
  { apply Forall2_length in Hall. destruct (body d); done. }
  rewrite <- Hr in *. rewrite Hslopes.
  eexists _, _, _, rul. split; [reflexivity|]. split; [done|].
  split; [apply lookup_insert_eq|].
  apply (Forall2_Forall_r _ _ _ _ Hall). intros row r0 Hrow Hr0.
  destruct Hr0 as (u & c & m & Hu & Hc & _ & -> & _ & Hzero).
  eexists. split; [reflexivity|]. apply Hzero.
  intros row' u' c' Hrow' Hu' Huu Hc'.
  assert (Hsame : row' = row).
  { apply (at_most_one (rows_of_unit d u)); [apply Hone | |];
      apply filter_In; (split; [done|]).
    - rewrite (proj2 (cell_at_Some 0 row' u') Hu'). simpl. by apply Qeq_bool_iff.
    - rewrite (proj2 (cell_at_Some 0 row u) Hu). simpl. by apply Qeq_bool_iff. }
  subst row'. rewrite Hc in Hc'. injection Hc' as <-. apply Qle_refl.
Qed.

Lemma unrepeated_units_give_no_slope_witness :
  exists h' s out rul,
    compute_engine_degradation (fun _ _ => inl LinAlgError) 0 1 None 0
      {[0 := singles_frame]} = (h', inr (s, out)) /\
    mean_sensor_degradation_slope s = None /\
    h' !! out = Some (with_RUL singles_frame rul).
Proof.
  destruct (unrepeated_units_give_no_slope (fun _ _ => inl LinAlgError)
              {[0 := singles_frame]} 0 singles_frame)
    as (h' & s & out & rul & Hrun & Hslope & Hout & _).
  - reflexivity.
  - unfold numeric_frame; simpl. split; [lia|]. split; [reflexivity|].
    repeat constructor.
  - simpl. discriminate.
  - intros k. unfold rows_of_unit; simpl.
    destruct (Qeq_bool 7 k) eqn:H7; destruct (Qeq_bool 8 k) eqn:H8;
      destruct (Qeq_bool 9 k) eqn:H9; simpl; try lia;
      rewrite ?Qeq_bool_iff in *;
      try (rewrite <- H7 in H8; discriminate H8);
      try (rewrite <- H7 in H9; discriminate H9);
      try (rewrite <- H8 in H9; discriminate H9).
  - by exists h', s, out, rul.
Defined.

End BatchFacts.

(** ** The rolling average stays within the window *)

Module WindowFacts.

Import Stream StreamFacts.
#[local] Open Scope py_scope.



End WindowFacts.
